(** * Rat-Bot-Bluesky: the reply bot ([bluesky_bot.py]) and the dataset
    builder ([process_twitter.py]), embedded in Rocq.

    Conventions of the embedding.

    - A Python [str] is a Rocq [string]; each [ascii] stands for the code
      point of the same number, so texts range over the code points below
      256.  [str.lower], [str.isalnum] and [str.isspace] are Python's tables
      on that range.
    - A Python [set] of strings is a [gset string].  Python does not fix the
      order in which [list(s)] enumerates a set; the enumeration is a
      parameter [list_of_set] of the bot, known only to list every member
      once.
    - A dict that the code subscripts is a record whose fields are [option]s:
      [None] is the absent key, on which a subscript raises [KeyError].
    - Code that can raise returns a [result]; code with effects threads the
      bot's state and appends to a log of the effects it performs. *)

From Stdlib Require Import ZArith Ascii String.
From stdpp Require Import gmap strings list sorting pretty.

Local Open Scope string_scope.
Local Open Scope list_scope.
Set Warnings "-clear-no-such-hyp".

(** ** Exceptions *)

Inductive exn :=
| KeyError (key : string)
| IndexError
| ValueError
| FileNotFoundError
| JSONDecodeError
| OSError (msg : string)
| RequestError (msg : string).

Inductive result (A : Type) :=
| Ok (a : A)
| Raise (e : exn).
Arguments Ok {A} a.
Arguments Raise {A} e.

#[global] Instance result_ret : MRet result := λ A a, Ok a.
#[global] Instance result_bind : MBind result := λ A B f r,
  match r with
  | Ok a => f a
  | Raise e => Raise e
  end.

(** [d[key]] on a dict whose entry for [key] is [field]. *)
Definition subscript {A} (field : option A) (key : string) : result A :=
  match field with
  | Some a => Ok a
  | None => Raise (KeyError key)
  end.

(** [str(e)] *)
Definition exn_str (e : exn) : string :=
  match e with
  | KeyError key => "'" +:+ key +:+ "'"
  | IndexError => "list index out of range"
  | ValueError => "invalid literal for int() with base 10"
  | FileNotFoundError => "[Errno 2] No such file or directory"
  | JSONDecodeError => "Expecting value"
  | OSError msg => msg
  | RequestError msg => msg
  end.

(** ** Python strings *)

Module Py.

Definition ord (c : ascii) : N := N_of_ascii c.

(** [c.lower()] for one code point below 256: A-Z and the capital letters of
    the upper half (all of 0xC0-0xDE but the multiplication sign 0xD7) move up
    by 32. *)
Definition lower_char (c : ascii) : ascii :=
  let n := ord c in
  if ((65 <=? n) && (n <=? 90) || (192 <=? n) && (n <=? 222) && negb (n =? 215))%N
  then ascii_of_N (n + 32) else c.

(** [c.isspace()] *)
Definition isspace (c : ascii) : bool :=
  let n := ord c in
  ((9 <=? n) && (n <=? 13) || (28 <=? n) && (n <=? 32) || (n =? 133) || (n =? 160))%N.

(** [c.isalnum()] *)
Definition isalnum (c : ascii) : bool :=
  let n := ord c in
  ((48 <=? n) && (n <=? 57) || (65 <=? n) && (n <=? 90) || (97 <=? n) && (n <=? 122)
   || (n =? 170) || (n =? 178) || (n =? 179) || (n =? 181) || (n =? 185) || (n =? 186)
   || (188 <=? n) && (n <=? 190)
   || (192 <=? n) && (n <=? 214) || (216 <=? n) && (n <=? 246) || (248 <=? n))%N.

(** [s.lower()] *)
Fixpoint lower (s : string) : string :=
  match s with
  | EmptyString => EmptyString
  | String c s' => String (lower_char c) (lower s')
  end.

Definition is_empty (s : string) : bool :=
  match s with EmptyString => true | String _ _ => false end.

Fixpoint lstrip (s : string) : string :=
  match s with
  | EmptyString => EmptyString
  | String c s' => if isspace c then lstrip s' else s
  end.

Fixpoint rstrip (s : string) : string :=
  match s with
  | EmptyString => EmptyString
  | String c s' =>
      let r := rstrip s' in
      if isspace c && is_empty r then EmptyString else String c r
  end.

(** [s.strip()] *)
Definition strip (s : string) : string := rstrip (lstrip s).

(** [''.join(c for c in s if keep(c))] *)
Fixpoint filter_chars (keep : ascii → bool) (s : string) : string :=
  match s with
  | EmptyString => EmptyString
  | String c s' =>
      if keep c then String c (filter_chars keep s') else filter_chars keep s'
  end.

(** [s.split()]: the maximal runs of non-whitespace, [cur] being the run
    under construction. *)
Fixpoint split_from (cur : string) (s : string) : list string :=
  match s with
  | EmptyString => if is_empty cur then [] else [cur]
  | String c s' =>
      if isspace c
      then (if is_empty cur then split_from EmptyString s'
            else cur :: split_from EmptyString s')
      else split_from (cur +:+ String c EmptyString) s'
  end.

Definition split (s : string) : list string := split_from EmptyString s.

(** [sub in s] *)
Fixpoint contains (sub s : string) : bool :=
  String.prefix sub s ||
  match s with
  | EmptyString => false
  | String _ s' => contains sub s'
  end.

(** [sep.join(l)] *)
Fixpoint join (sep : string) (l : list string) : string :=
  match l with
  | [] => EmptyString
  | [x] => x
  | x :: rest => x +:+ sep +:+ join sep rest
  end.

(** [s.split(sep)[0]]: what precedes the first occurrence of [sep]
    (all of [s] when there is none). *)
Fixpoint before_first (sep s : string) : string :=
  if String.prefix sep s then EmptyString
  else match s with
       | EmptyString => EmptyString
       | String c s' => String c (before_first sep s')
       end.

(** [s.split(sep)[1]]: what lies between the first and the second occurrence
    of [sep]; [IndexError] when [sep] does not occur. *)
Fixpoint after_first (sep s : string) : option string :=
  if String.prefix sep s then Some (String.substring (String.length sep) (String.length s) s)
  else match s with
       | EmptyString => None
       | String _ s' => after_first sep s'
       end.

Definition split_item1 (sep s : string) : result string :=
  match after_first sep s with
  | Some rest => Ok (before_first sep rest)
  | None => Raise IndexError
  end.

(** [int(s)] on a string: surrounding whitespace is dropped, then an optional
    sign and decimal digits, where single underscores may separate digits.
    The whitespace [int] drops is [isspace] without the separators
    0x1C-0x1F. *)
Definition int_space (c : ascii) : bool :=
  let n := ord c in
  ((9 <=? n) && (n <=? 13) || (n =? 32) || (n =? 133) || (n =? 160))%N.

Fixpoint int_lstrip (s : string) : string :=
  match s with
  | EmptyString => EmptyString
  | String c s' => if int_space c then int_lstrip s' else s
  end.

Fixpoint int_rstrip (s : string) : string :=
  match s with
  | EmptyString => EmptyString
  | String c s' =>
      let r := int_rstrip s' in
      if int_space c && is_empty r then EmptyString else String c r
  end.

Definition digit (c : ascii) : option Z :=
  let n := ord c in
  if ((48 <=? n) && (n <=? 57))%N then Some (Z.of_N (n - 48)) else None.

Fixpoint int_digits (acc : Z) (s : string) : option Z :=
  match s with
  | EmptyString => Some acc
  | String c s' =>
      match digit c with
      | Some d => int_digits (10 * acc + d) s'
      | None =>
          if Ascii.eqb c "_" then
            match s' with
            | String c' s'' =>
                match digit c' with
                | Some d => int_digits (10 * acc + d) s''
                | None => None
                end
            | EmptyString => None
            end
          else None
      end
  end.

Definition int_unsigned (s : string) : option Z :=
  match s with
  | String c s' =>
      match digit c with
      | Some d => int_digits d s'
      | None => None
      end
  | EmptyString => None
  end.

Definition int (s : string) : result Z :=
  let s := int_rstrip (int_lstrip s) in
  let value :=
    match s with
    | String c s' =>
        if Ascii.eqb c "+" then int_unsigned s'
        else if Ascii.eqb c "-" then Z.opp <$> int_unsigned s'
        else int_unsigned s
    | EmptyString => None
    end in
  match value with
  | Some z => Ok z
  | None => Raise ValueError
  end.

(** [os.path.join(a, b)] *)
Definition ends_with_slash (s : string) : bool :=
  match String.get (String.length s - 1) s with
  | Some c => Ascii.eqb c "/"
  | None => false
  end.

Definition path_join (a b : string) : string :=
  if String.prefix "/" b then b
  else if is_empty a || ends_with_slash a then a +:+ b
  else a +:+ "/" +:+ b.

(** [s] between double quotes *)
Definition quoted (s : string) : string :=
  String (ascii_of_nat 34) s +:+ String (ascii_of_nat 34) EmptyString.

(** [str(b)] for a bool *)
Definition str_bool (b : bool) : string := if b then "True" else "False".

End Py.

(** ** ContentFilter *)

(** [self.sensitive_topics]: a dict literal, iterated in insertion order. *)
Definition sensitive_topics : list (string * list string) :=
  [ ("death",
     ["rip"; "rest in peace"; "passed away"; "death"; "died"; "dead";
      "condolences"; "funeral"; "mourning"; "tragedy"; "fatal"; "killed";
      "loss"; "gone too soon"; "in loving memory"; "memorial"]);
    ("tragedy",
     ["accident"; "disaster"; "emergency"; "crisis"; "tragic"; "devastated";
      "devastating"; "horrible news"; "terrible news"; "catastrophe"]);
    ("health",
     ["hospital"; "sick"; "illness"; "disease"; "cancer"; "surgery";
      "diagnosed"; "treatment"; "health"; "medical"; "recovery"]);
    ("relationship",
     ["breakup"; "divorce"; "separated"; "break up"; "broke up";
      "breaking up"; "split up"; "splitting up"; "heartbreak"]);
    ("grief",
     ["grief"; "grieving"; "sorry for your loss"; "heartbroken";
      "devastating"; "miss you"; "missing you"]) ].

(** [self.all_keywords]: the union of the keyword lists. *)
Definition all_keywords : gset string :=
  foldl (λ acc entry, acc ∪ list_to_set entry.2) ∅ sensitive_topics.

(** [preprocess_text] *)
Definition preprocess_text (text : string) : list string :=
  let text := Py.strip (Py.lower text) in
  let text := Py.filter_chars (λ c, Py.isalnum c || Py.isspace c) text in
  Py.split text.

(** The loop of lines 67-70: every topic one of whose keywords occurs in
    [text_lower] is added. *)
Definition substring_pass (text_lower : string) (detected : gset string) : gset string :=
  foldl (λ det entry,
           foldl (λ det keyword,
                    if Py.contains keyword text_lower then det ∪ {[entry.1]} else det)
                 det entry.2)
        detected sensitive_topics.

(** [f"{a} {b}"] *)
Definition bigram (a b : string) : string := a +:+ " " +:+ b.

(** The inner loop of lines 76-78. *)
Definition topics_of (phrase : string) (detected : gset string) : gset string :=
  foldl (λ det entry,
           if bool_decide (phrase ∈ entry.2) then det ∪ {[entry.1]} else det)
        detected sensitive_topics.

(** The loop of lines 73-78 over [range(len(words) - 1)]. *)
Definition bigram_pass (words : list string) (detected : gset string) : gset string :=
  foldl (λ det i,
           match words !! i, words !! S i with
           | Some a, Some b =>
               if bool_decide (bigram a b ∈ all_keywords)
               then topics_of (bigram a b) det else det
           | _, _ => det
           end)
        detected (seq 0 (length words - 1)).

Definition detect (text : string) : gset string :=
  bigram_pass (preprocess_text text) (substring_pass (Py.lower text) ∅).

(** ** BlueskyBot: data *)

(** The dicts of a feed entry, with the keys the bot reads.  [*_extra] tells
    whether the dict has keys besides those: an empty dict is falsy. *)
Record Author := {
  au_handle : option string;
  au_displayName : option string }.

Record PostRecord := {
  rec_text : option string }.

Record PostView := {
  pv_uri : option string;
  pv_cid : option string;
  pv_author : option Author;
  pv_record : option PostRecord;
  pv_extra : bool }.

Record RootView := {
  rv_uri : option string;
  rv_cid : option string;
  rv_extra : bool }.

Record ReplyInfo := {
  ri_root : option RootView }.

Record FeedEntry := {
  fe_post : option PostView;
  fe_reply : option ReplyInfo }.

(** [{"uri": ..., "cid": ...}] *)
Record StrongRef := {
  sr_uri : string;
  sr_cid : string }.

(** A row of [twitter_data.csv], as [csv.DictReader] yields it and as the
    builder writes it; the ID cell holds an integer. *)
Record Row := {
  ID : Z;
  Twitter_URL : string;
  Local_Image_Path : string;
  Reply_Text : string }.

(** [replied_posts.json]: absent, not decodable as JSON, or a JSON array of
    strings. *)
Inductive file_state :=
| NoFile
| NotJson
| JsonStrings (uris : list string).

(** What the bot holds and owns: [self.replied_posts] and the file behind it. *)
Record BotState := {
  replied_posts : gset string;
  replied_posts_file : file_state }.

(** The effects a call performs, in order. *)
Inductive effect :=
| Print (line : string)
| ReadImage (path : string)
| SendImage (text image image_alt : string) (parent root : StrongRef)
| WriteReplied (uris : list string).

(** The collaborators outside the bot: the image files, the client, the
    writability of the replied-posts file and the random generator. *)
Record Env := {
  read_binary : string → result string;
  send_image : string → string → string → StrongRef → StrongRef → result unit;
  open_for_write : result unit;
  randint : Z → Z → Z }.

(** ** BlueskyBot: the monad of its methods *)

Definition Bot (A : Type) : Type := BotState → result A * BotState * list effect.

#[global] Instance Bot_ret : MRet Bot := λ A a st, (Ok a, st, []).
#[global] Instance Bot_bind : MBind Bot := λ A B f m st,
  match m st with
  | (Ok a, st1, log1) => let '(r, st2, log2) := f a st1 in (r, st2, (log1 ++ log2)%list)
  | (Raise e, st1, log1) => (Raise e, st1, log1)
  end.

Definition lift {A} (r : result A) : Bot A := λ st, (r, st, []).
Definition emit (e : effect) : Bot unit := λ st, (Ok tt, st, [e]).
Definition print (line : string) : Bot unit := emit (Print line).
Definition get_state : Bot BotState := λ st, (Ok st, st, []).
Definition put_state (st : BotState) : Bot unit := λ _, (Ok tt, st, []).

(** [try: body except Exception as e: handler(e)] *)
Definition try_except {A} (body : Bot A) (handler : exn → Bot A) : Bot A := λ st,
  match body st with
  | (Raise e, st1, log1) => let '(r, st2, log2) := handler e st1 in (r, st2, (log1 ++ log2)%list)
  | done => done
  end.

(** Truth value of a dict: it has some key. *)
Definition post_truthy (p : PostView) : bool :=
  bool_decide (is_Some (pv_uri p)) || bool_decide (is_Some (pv_cid p))
  || bool_decide (is_Some (pv_author p)) || bool_decide (is_Some (pv_record p))
  || pv_extra p.

Definition root_truthy (r : RootView) : bool :=
  bool_decide (is_Some (rv_uri r)) || bool_decide (is_Some (rv_cid r)) || rv_extra r.

(** ** BlueskyBot: methods *)

Section Bot.

(** [list(s)] for a Python set [s]: some enumeration of its members. *)
Variable list_of_set : gset string → list string.
Hypothesis list_of_set_perm : ∀ s, list_of_set s ≡ₚ elements s.

(** [contains_sensitive_content]; [None] is Python's [None], which like the
    empty string fails the test [if not text]. *)
Definition contains_sensitive_content (text : option string) : bool * list string :=
  match text with
  | None => (false, [])
  | Some text =>
      if Py.is_empty text then (false, [])
      else
        let detected_topics := detect text in
        (bool_decide (0 < size detected_topics), list_of_set detected_topics)
  end.

(** [load_replied_posts] *)
Definition read_json (f : file_state) : result (list string) :=
  match f with
  | NoFile => Raise FileNotFoundError
  | NotJson => Raise JSONDecodeError
  | JsonStrings uris => Ok uris
  end.

Definition load_replied_posts (f : file_state) : result (gset string) :=
  match read_json f with
  | Ok uris => Ok (list_to_set uris)
  | Raise FileNotFoundError | Raise JSONDecodeError => Ok ∅
  | Raise e => Raise e
  end.

(** [save_replied_posts] *)
Definition save_replied_posts (env : Env) : Bot unit :=
  st ← get_state;
  let uris := list_of_set (replied_posts st) in
  lift (open_for_write env);;
  emit (WriteReplied uris);;
  put_state {| replied_posts := replied_posts st; replied_posts_file := JsonStrings uris |}.

(** [extract_reply_info] *)
Definition extract_reply_info (post : FeedEntry) : option PostView * option RootView :=
  match (reply_info ← subscript (fe_reply post) "reply";
         root ← subscript (ri_root reply_info) "root";
         parent ← subscript (fe_post post) "post";
         mret (parent, root)) with
  | Ok (parent, root) => (Some parent, Some root)
  | Raise _ => (None, None)
  end.

(** [should_reply_to_post] *)
Definition should_reply_to_post (post : FeedEntry) : result (bool * string) :=
  match (p ← subscript (fe_post post) "post";
         r ← subscript (pv_record p) "record";
         subscript (rec_text r) "text") with
  | Raise (KeyError _) => Ok (true, "No text content")
  | Raise e => Raise e
  | Ok post_text =>
      let '(has_sensitive_content, topics) := contains_sensitive_content (Some post_text) in
      if has_sensitive_content
      then Ok (false, "Post contains sensitive topics: " +:+ Py.join ", " topics)
      else Ok (true, "Content appropriate for reply")
  end.

(** [log_post_details] *)
Definition log_post_details (post : FeedEntry) : Bot unit :=
  let author : option Author := fe_post post ≫= pv_author in
  let author_handle : option string := author ≫= au_handle in
  let display_name : option string := author ≫= au_displayName in
  let post_uri : option string := fe_post post ≫= pv_uri in
  let post_record : option PostRecord := fe_post post ≫= pv_record in
  let post_text : option string := post_record ≫= rec_text in
  let author_handle := default "unknown handle" author_handle in
  let display_name := default "unknown display name" display_name in
  let post_uri := default "unknown uri" post_uri in
  let post_text := default EmptyString post_text in
  print (String (ascii_of_nat 10) "Post Analysis:");;
  print ("Author: " +:+ display_name +:+ " (" +:+ author_handle +:+ ")");;
  print ("URI: " +:+ post_uri);;
  print (if bool_decide (100 < String.length post_text)
         then "Content: " +:+ String.substring 0 100 post_text +:+ "..."
         else "Content: " +:+ post_text);;
  '(should_reply, reason) ← lift (should_reply_to_post post);
  print ("Should reply: " +:+ Py.str_bool should_reply +:+ " - " +:+ reason).

(** [self.client.send_image(text=..., image=..., image_alt=..., reply_to=ReplyRef(parent, root))] *)
Definition client_send_image (env : Env) (text image image_alt : string)
    (parent root : StrongRef) : Bot unit :=
  emit (SendImage text image image_alt parent root);;
  lift (send_image env text image image_alt parent root).

(** Lines 211-221: the reply to a post that is its own thread root. *)
Definition send_as_root (env : Env) (post : FeedEntry) (reply_text img_data : string)
    : Bot unit :=
  p ← lift (subscript (fe_post post) "post");
  uri ← lift (subscript (pv_uri p) "uri");
  cid ← lift (subscript (pv_cid p) "cid");
  let parent_strong_ref := {| sr_uri := uri; sr_cid := cid |} in
  let root_strong_ref := parent_strong_ref in
  client_send_image env reply_text img_data "A cute dog" parent_strong_ref root_strong_ref.

(** Lines 194-221: the thread anchor and the dispatch. *)
Definition send_reply (env : Env) (post : FeedEntry) (reply_text img_data : string)
    : Bot unit :=
  match extract_reply_info post with
  | (Some parent, Some root) =>
      if post_truthy parent && root_truthy root then
        parent_uri ← lift (subscript (pv_uri parent) "uri");
        parent_cid ← lift (subscript (pv_cid parent) "cid");
        let parent_strong_ref := {| sr_uri := parent_uri; sr_cid := parent_cid |} in
        root_uri ← lift (subscript (rv_uri root) "uri");
        root_cid ← lift (subscript (rv_cid root) "cid");
        let root_strong_ref := {| sr_uri := root_uri; sr_cid := root_cid |} in
        client_send_image env reply_text img_data "A cute dog" parent_strong_ref root_strong_ref
      else send_as_root env post reply_text img_data
  | _ => send_as_root env post reply_text img_data
  end.

(** The body of the second [try] of [reply_to_post], lines 194-226. *)
Definition dispatch_and_record (env : Env) (post : FeedEntry)
    (post_uri reply_text img_data : string) : Bot bool :=
  send_reply env post reply_text img_data;;
  st ← get_state;
  put_state {| replied_posts := replied_posts st ∪ {[post_uri]};
               replied_posts_file := replied_posts_file st |};;
  save_replied_posts env;;
  print ("Successfully replied to post: " +:+ post_uri);;
  mret true.

(** [reply_to_post] *)
Definition reply_to_post (env : Env) (post : FeedEntry) (reply_text image_path : string)
    : Bot bool :=
  post_uri ← lift (p ← subscript (fe_post post) "post"; subscript (pv_uri p) "uri");
  '(should_reply, reason) ← lift (should_reply_to_post post);
  if negb should_reply then
    print ("Skipping reply to post " +:+ post_uri +:+ ": " +:+ reason);;
    mret false
  else
    st ← get_state;
    if bool_decide (post_uri ∈ replied_posts st) then
      print ("Already replied to post: " +:+ post_uri);;
      mret false
    else
      log_post_details post;;
      emit (ReadImage image_path);;
      match read_binary env image_path with
      | Raise FileNotFoundError =>
          print ("Image file not found: " +:+ image_path);;
          mret false
      | Raise e =>
          print ("Error reading image file: " +:+ exn_str e);;
          mret false
      | Ok img_data =>
          try_except
            (dispatch_and_record env post post_uri reply_text img_data)
            (λ e, print ("Error sending reply: " +:+ exn_str e);; mret false)
      end.

(** [get_random_content], on the rows of [twitter_data.csv]. *)
Fixpoint scan_rows (x : Z) (rows : list Row) : option string * option string :=
  match rows with
  | [] => (None, None)
  | row :: rest =>
      if bool_decide (ID row = x)
      then (Some (Local_Image_Path row), Some (Reply_Text row))
      else scan_rows x rest
  end.


Definition get_random_content (env : Env) (rows : list Row) : option string * option string :=
  let x := randint env 1 514 in
  scan_rows x rows.

End Bot.

(** ** The dataset builder ([process_twitter.py]) *)

(** An [img] element as Selenium shows it: [get_attribute] gives a string or
    [None]. *)
Record Element := {
  el_src : option string;
  el_width : option string;
  el_height : option string }.

(** [wait.until(presence_of_all_elements_located(selector))]: the elements,
    or a timeout. *)
Inductive located :=
| TimedOut
| Located (elements : list Element).

(** [driver.get(url)]: it raises, or the page answers each selector. *)
Inductive page_load :=
| LoadRaises (msg : string)
| Loaded (page : string → located).

(** The collaborators of the builder: the browser, by URL and attempt, and
    the HTTP client, by URL and attempt, answering a status code. *)
Record BuilderEnv := {
  browse : string → nat → page_load;
  http_get : string → nat → result Z }.

Definition selectors : list string :=
  [ "img[alt=" +:+ Py.quoted "Image" +:+ "]";
    "div[data-testid=" +:+ Py.quoted "tweetPhoto" +:+ "] img";
    "div[data-testid=" +:+ Py.quoted "tweet" +:+ "] img";
    "article img";
    "div[role=" +:+ Py.quoted "article" +:+ "] img" ].

(** [int(element.get_attribute(name) or 0)] *)
Definition attribute_or_0 (attribute : option string) : result Z :=
  match attribute with
  | None => Ok 0%Z
  | Some s => if Py.is_empty s then Ok 0%Z else Py.int s
  end.

(** Lines 65-73 for one element: the [src] it appends to [valid_images],
    if any. *)
Definition check_element (element : Element) : result (option string) :=
  match el_src element with
  | None => Ok None
  | Some src =>
      if negb (Py.is_empty src)
         && (negb (Py.contains "profile" (Py.lower src))
             && negb (Py.contains "avatar" (Py.lower src)))
      then
        match (width ← attribute_or_0 (el_width element);
               height ← attribute_or_0 (el_height element);
               mret (bool_decide (10000 < width * height)%Z)) with
        | Ok true => Ok (Some src)
        | Ok false => Ok None
        | Raise ValueError => Ok (Some src)
        | Raise e => Raise e
        end
      else Ok None
  end.

(** Lines 63-73: the loop building [valid_images]. *)
Fixpoint valid_images (elements : list Element) : result (list string) :=
  match elements with
  | [] => Ok []
  | element :: rest =>
      kept ← check_element element;
      others ← valid_images rest;
      mret (match kept with Some src => src :: others | None => others end)
  end.

(** Lines 77-78 *)
Definition largest_format (image_url : string) : string :=
  if Py.contains "?format=" image_url
  then Py.before_first "?format=" image_url +:+ "?format=jpg&name=large"
  else image_url.

(** Lines 57-81: the loop over the selectors; any exception moves on to the
    next selector. *)
Fixpoint try_selectors (page : string → located) (sels : list string) : option string :=
  match sels with
  | [] => None
  | selector :: rest =>
      match page selector with
      | TimedOut => try_selectors page rest
      | Located elements =>
          match valid_images elements with
          | Ok (image_url :: _) => Some (largest_format image_url)
          | Ok [] => try_selectors page rest
          | Raise _ => try_selectors page rest
          end
      end
  end.

(** The loop over [range(max_retries)], on the attempts still to make. *)
Fixpoint try_attempts (visit : nat → page_load) (attempts : list nat) : option string :=
  match attempts with
  | [] => None
  | attempt :: rest =>
      match visit attempt with
      | LoadRaises _ => try_attempts visit rest
      | Loaded page =>
          match try_selectors page selectors with
          | Some image_url => Some image_url
          | None => try_attempts visit rest
          end
      end
  end.

(** [get_image_url_from_tweet]; the waits between attempts do not bear on
    the result. *)
Definition get_image_url_from_tweet (env : BuilderEnv) (tweet_url : string)
    (max_retries : nat) : option string :=
  try_attempts (browse env tweet_url) (seq 0 max_retries).

(** [download_image]: the loop over [range(max_retries)]. *)
Fixpoint download_attempts (get : nat → result Z) (attempts : list nat) : bool :=
  match attempts with
  | [] => false
  | attempt :: rest =>
      match get attempt with
      | Ok status =>
          if bool_decide (status = 200%Z) then true
          else if bool_decide (status = 429%Z) then download_attempts get rest
          else false
      | Raise _ => download_attempts get rest
      end
  end.

Definition download_image (env : BuilderEnv) (image_url save_path : string)
    (max_retries : nat) : bool :=
  download_attempts (http_get env image_url) (seq 0 max_retries).

(** [data.sort(key=lambda x: x[0])]: the stable sort by the first component. *)
Definition entry : Type := Z * string * string.
Definition entry_id (e : entry) : Z := e.1.1.

Fixpoint insert_by_id (e : entry) (sorted : list entry) : list entry :=
  match sorted with
  | [] => [e]
  | e' :: rest =>
      if bool_decide (entry_id e ≤ entry_id e')%Z then e :: sorted
      else e' :: insert_by_id e rest
  end.

Fixpoint sort_by_id (data : list entry) : list entry :=
  match data with
  | [] => []
  | e :: rest => insert_by_id e (sort_by_id rest)
  end.

(** [(int(m.group(1)), m.group(2).strip(), m.group(3))], on a match whose
    group 1 is given as the integer it spells. *)
Definition read_match (m : entry) : entry := (m.1.1, Py.strip m.1.2, m.2).

(** [extract_data_from_code], on the successive matches of the pattern in the
    code file. *)
Definition extract_data_from_code (matches : list entry) : list entry :=
  sort_by_id (map read_match matches).

(** Lines 125-130: the IDs of the rows of the output CSV, when it exists. *)
Definition processed_ids (output_csv : option (list Row)) : gset Z :=
  match output_csv with
  | Some rows => list_to_set (map ID rows)
  | None => ∅
  end.

(** Lines 138-139: the entries left to process. *)
Definition entries_to_process (data : list entry) (processed : gset Z) (start_from : Z)
    : list entry :=
  filter (λ e, (start_from ≤ entry_id e)%Z ∧ entry_id e ∉ processed) data.

(** Lines 152-173: the row written for one entry. *)
Definition process_entry (env : BuilderEnv) (images_dir : string) (e : entry) : Row :=
  let '(id_num, url, caption) := e in
  let written :=
    match get_image_url_from_tweet env url 3 with
    | Some image_url =>
        part ← Py.split_item1 "status/" url;
        let tweet_id := Py.before_first "/" part in
        let save_path := Py.path_join images_dir ("twitter_" +:+ tweet_id +:+ ".jpg") in
        if download_image env image_url save_path 3
        then mret save_path
        else mret "Failed to download"
    | None => mret "No image found"
    end in
  match written with
  | Ok cell => {| ID := id_num; Twitter_URL := url; Local_Image_Path := cell; Reply_Text := caption |}
  | Raise e => {| ID := id_num; Twitter_URL := url;
                  Local_Image_Path := "Error: " +:+ exn_str e; Reply_Text := caption |}
  end.

(** [process_twitter_data]: the rows of the output CSV when it returns (the
    header line apart). *)
Definition process_twitter_data (env : BuilderEnv) (matches : list entry)
    (output_csv : option (list Row)) (images_dir : string) (start_from : Z) : list Row :=
  let processed := processed_ids output_csv in
  let data := extract_data_from_code matches in
  let data := entries_to_process data processed start_from in
  (default [] output_csv ++ map (process_entry env images_dir) data)%list.

(** ** Notions used in the statements *)

(** Two readings of "the text contains a trigger phrase": as a substring of
    the lowercased text, and as a pair of adjacent normalized tokens. *)
Definition has_trigger_substring (text : string) : bool :=
  existsb (λ entry, existsb (λ keyword, Py.contains keyword (Py.lower text)) entry.2)
          sensitive_topics.

Definition adjacent_pairs (words : list string) : list string :=
  omap (λ i, match words !! i, words !! S i with
             | Some a, Some b => Some (bigram a b)
             | _, _ => None
             end)
       (seq 0 (length words - 1)).

Definition has_trigger_bigram (text : string) : bool :=
  existsb (λ p, bool_decide (p ∈ all_keywords)) (adjacent_pairs (preprocess_text text)).

(** The reply text the gate can extract from a post. *)
Definition extractable_text (post : FeedEntry) : option string :=
  p ← fe_post post; r ← pv_record p; rec_text r.

(** The URI of a post. *)
Definition uri_of (post : FeedEntry) : option string :=
  p ← fe_post post; pv_uri p.

Definition is_print (e : effect) : bool :=
  match e with
  | Print _ => true
  | _ => false
  end.

(** A log that holds console lines only: no image read, no dispatch, no
    write of the replied-posts file. *)
Definition only_prints (log : list effect) : Prop := forallb is_print log = true.


Definition dispatch_succeeded (env : Env) (e : effect) : Prop :=
  match e with
  | SendImage text image image_alt parent root =>
      send_image env text image image_alt parent root = Ok tt
  | _ => False
  end.

(** What a call of [reply_to_post] on a post of URI [u] can come to, from
    state [st]: its result, the state it leaves and its log. *)
Section ReplyOutcomes.

Variable list_of_set : gset string → list string.
Variables (env : Env) (st : BotState) (u reply_text image_path : string).

Definition marked : gset string := replied_posts st ∪ {[u]}.

Inductive reply_outcome : result bool → BotState → list effect → Prop :=
| outcome_skipped pre :
    only_prints pre →
    reply_outcome (Ok false) st pre
| outcome_image_unreadable pre e line :
    u ∉ replied_posts st → only_prints pre →
    read_binary env image_path = Raise e →
    reply_outcome (Ok false) st (pre ++ [ReadImage image_path; Print line])
| outcome_no_anchor pre img line :
    u ∉ replied_posts st → only_prints pre →
    read_binary env image_path = Ok img →
    reply_outcome (Ok false) st (pre ++ [ReadImage image_path; Print line])
| outcome_send_failed pre img parent root e line :
    u ∉ replied_posts st → only_prints pre →
    read_binary env image_path = Ok img →
    send_image env reply_text img "A cute dog" parent root = Raise e →
    reply_outcome (Ok false) st
      (pre ++ [ReadImage image_path;
               SendImage reply_text img "A cute dog" parent root; Print line])
| outcome_save_failed pre img parent root e line :
    u ∉ replied_posts st → only_prints pre →
    read_binary env image_path = Ok img →
    send_image env reply_text img "A cute dog" parent root = Ok tt →
    open_for_write env = Raise e →
    reply_outcome (Ok false)
      {| replied_posts := marked; replied_posts_file := replied_posts_file st |}
      (pre ++ [ReadImage image_path;
               SendImage reply_text img "A cute dog" parent root; Print line])
| outcome_replied pre img parent root line :
    u ∉ replied_posts st → only_prints pre →
    read_binary env image_path = Ok img →
    send_image env reply_text img "A cute dog" parent root = Ok tt →
    open_for_write env = Ok tt →
    reply_outcome (Ok true)
      {| replied_posts := marked;
         replied_posts_file := JsonStrings (list_of_set marked) |}
      (pre ++ [ReadImage image_path;
               SendImage reply_text img "A cute dog" parent root;
               WriteReplied (list_of_set marked); Print line]).

End ReplyOutcomes.

(** ** Sample inputs *)

Module Sample.

Definition view (uri : string) (record : option PostRecord) : PostView :=
  {| pv_uri := Some uri; pv_cid := Some "bafyreib2"; pv_author := None;
     pv_record := record; pv_extra := false |}.

(** A top-level post with a harmless text. *)
Definition dog_post : FeedEntry :=
  {| fe_post := Some (view "at://x/1" (Some {| rec_text := Some "Check out this cute dog photo!" |}));
     fe_reply := None |}.

(** A post whose record has no text. *)
Definition textless_post : FeedEntry :=
  {| fe_post := Some (view "at://x/2" (Some {| rec_text := None |}));
     fe_reply := None |}.

(** A post with a sensitive text. *)
Definition sad_post : FeedEntry :=
  {| fe_post := Some (view "at://x/3" (Some {| rec_text := Some "So sorry for your loss, RIP" |}));
     fe_reply := None |}.

Definition fresh : BotState :=
  {| replied_posts := ∅; replied_posts_file := NoFile |}.

Definition replied_x1 : BotState :=
  {| replied_posts := {["at://x/1"]}; replied_posts_file := JsonStrings ["at://x/1"] |}.

(** Every collaborator works; the generator answers its lower bound. *)
Definition working : Env :=
  {| read_binary := λ _, Ok "JFIF";
     send_image := λ _ _ _ _ _, Ok tt;
     open_for_write := Ok tt;
     randint := λ a _, a |}.

(** The client raises on every dispatch. *)
Definition client_down : Env :=
  {| read_binary := λ _, Ok "JFIF";
     send_image := λ _ _ _ _ _, Raise (RequestError "connection reset");
     open_for_write := Ok tt;
     randint := λ a _, a |}.

Definition dataset : list Row :=
  [ {| ID := 2; Twitter_URL := "https://twitter.com/a/status/20";
       Local_Image_Path := "downloaded_images/twitter_20.jpg"; Reply_Text := "two" |};
    {| ID := 1; Twitter_URL := "https://twitter.com/a/status/10";
       Local_Image_Path := "downloaded_images/twitter_10.jpg"; Reply_Text := "one" |};
    {| ID := 1; Twitter_URL := "https://twitter.com/a/status/11";
       Local_Image_Path := "No image found"; Reply_Text := "one again" |} ].

End Sample.

(** ** Notions used in the statements on the builder *)

(** Entries ordered by ID. *)
Definition id_le (a b : entry) : Prop := (entry_id a ≤ entry_id b)%Z.

(** [src] looks like a profile or avatar image. *)
Definition avatar_like (src : string) : bool :=
  Py.contains "profile" (Py.lower src) || Py.contains "avatar" (Py.lower src).

(** The size test of lines 67-73: an attribute that is not an integer
    literal lets the element in, otherwise the area decides, an absent or
    empty attribute counting as 0. *)
Definition size_passes (element : Element) : bool :=
  match attribute_or_0 (el_width element) with
  | Raise _ => true
  | Ok width =>
      match attribute_or_0 (el_height element) with
      | Raise _ => true
      | Ok height => bool_decide (10000 < width * height)%Z
      end
  end.

Definition accepted (element : Element) : bool :=
  match el_src element with
  | Some src => negb (Py.is_empty src) && negb (avatar_like src) && size_passes element
  | None => false
  end.

(** What one attempt finds. *)
Definition attempt_finds (load : page_load) : option string :=
  match load with
  | LoadRaises _ => None
  | Loaded page => try_selectors page selectors
  end.

(** A selector that yields no accepted element on a page. *)
Definition barren (page : string → located) (selector : string) : Prop :=
  page selector = TimedOut
  ∨ ∃ elements, page selector = Located elements ∧ ∀ e, e ∈ elements → accepted e = false.

Module BuilderSample.

(** A tweet photo whose [width] and [height] attributes are absent. *)
Definition unsized_photo : Element :=
  {| el_src := Some "https://pbs.twimg.com/media/GabcXYZ?format=png&name=small";
     el_width := None; el_height := None |}.

Definition sized_photo : Element :=
  {| el_src := Some "https://pbs.twimg.com/media/GabcXYZ?format=png&name=small";
     el_width := Some "680"; el_height := Some "510" |}.

(** Dimensions that are present and are not integer literals. *)
Definition odd_sized_photo : Element :=
  {| el_src := Some "https://pbs.twimg.com/media/GabcXYZ?format=png&name=small";
     el_width := Some "auto"; el_height := Some "510" |}.

Definition avatar : Element :=
  {| el_src := Some "https://pbs.twimg.com/profile_images/1/me.jpg";
     el_width := Some "680"; el_height := Some "510" |}.

(** A browser in which every page shows [elements] under every selector. *)
Definition showing (elements : list Element) : BuilderEnv :=
  {| browse := λ _ _, Loaded (λ _, Located elements);
     http_get := λ _ _, Ok 200%Z |}.

Definition source : list entry :=
  [ (12, " https://twitter.com/a/status/112 ", "twelve");
    (3, "https://twitter.com/a/status/103", "three");
    (11, "https://twitter.com/a/status/111", "eleven");
    (7, "https://twitter.com/a/status/107", "seven");
    (5, "https://twitter.com/a/status/105", "five");
    (13, "https://twitter.com/a/status/113", "thirteen") ]%Z.

Definition row (id : Z) : Row :=
  {| ID := id; Twitter_URL := "https://twitter.com/a/status/1";
     Local_Image_Path := "downloaded_images/twitter_1.jpg"; Reply_Text := "old" |}.

(** An output CSV with rows for the IDs 1 to 10. *)
Definition csv_1_to_10 : list Row := map row (seqZ 1 10).

End BuilderSample.

(** ** BlueskyBot: start-up, the feed and the poll loop *)

(** [str(n)] for an int *)
Definition str_int (n : Z) : string := pretty n.

(** [os.getenv] on the four variables the bot reads. *)
Record Environ := {
  LIST_URI : option string;
  BLUESKY_USERNAME : option string;
  BLUESKY_PASSWORD : option string;
  CHECK_INTERVAL : option string }.

(** Truth value of [os.getenv(name)]: set, and not to the empty string. *)
Definition env_truthy (value : option string) : bool :=
  match value with
  | Some s => negb (Py.is_empty s)
  | None => false
  end.

(** The fields [__init__] leaves on the bot. *)
Record BotConfig := {
  list_uri : string;
  username : string;
  password : string;
  check_interval : Z }.

(** [BlueskyBot.__init__]; [login] is [self.client.login]. *)
Definition init (check_interval_arg : Z) (environ : Environ) (file : file_state)
    (login : string → string → result unit) : result (BotConfig * BotState) :=
  interval ← Py.int (default "60" (CHECK_INTERVAL environ));
  if env_truthy (LIST_URI environ) && env_truthy (BLUESKY_USERNAME environ)
     && env_truthy (BLUESKY_PASSWORD environ)
  then
    replied ← load_replied_posts file;
    let user := default EmptyString (BLUESKY_USERNAME environ) in
    let pass := default EmptyString (BLUESKY_PASSWORD environ) in
    login user pass;;
    mret ({| list_uri := default EmptyString (LIST_URI environ);
             username := user; password := pass; check_interval := interval |},
          {| replied_posts := replied; replied_posts_file := file |})
  else Raise ValueError.

(** The answer of the feed endpoint: its status and what [response.json()]
    gives, an exception or a dict with or without the key [feed]. *)
Record Response := {
  status_code : Z;
  json_feed : result (option (list FeedEntry)) }.

(** [fetch_latest_posts], on what [requests.get] does. *)
Definition fetch_latest_posts (request : result Response) : Bot (list FeedEntry) :=
  response ← lift request;
  if bool_decide (status_code response = 200%Z) then
    body ← lift (json_feed response);
    mret (default [] body)
  else
    print ("Error fetching posts: " +:+ str_int (status_code response));;
    mret [].

(** The poll loop logs what the bot does and how long it sleeps. *)
Inductive loop_event :=
| BotDid (e : effect)
| Slept (seconds : Z).

Definition Loop (A : Type) : Type := BotState → result A * BotState * list loop_event.

#[global] Instance Loop_ret : MRet Loop := λ A a st, (Ok a, st, []).
#[global] Instance Loop_bind : MBind Loop := λ A B f m st,
  match m st with
  | (Ok a, st1, log1) => let '(r, st2, log2) := f a st1 in (r, st2, log1 ++ log2)
  | (Raise e, st1, log1) => (Raise e, st1, log1)
  end.

Definition run_bot {A} (m : Bot A) : Loop A := λ st,
  let '(r, st1, log) := m st in (r, st1, map BotDid log).

(** [time.sleep(seconds)] *)
Definition sleep (seconds : Z) : Loop unit := λ st, (Ok tt, st, [Slept seconds]).

Definition loop_try {A} (body : Loop A) (handler : exn → Loop A) : Loop A := λ st,
  match body st with
  | (Raise e, st1, log1) => let '(r, st2, log2) := handler e st1 in (r, st2, log1 ++ log2)
  | done => done
  end.

(** What one iteration of [while True] meets: the answer to its feed
    request, the dataset file, and the collaborators as they are when the
    post of each index is handled. *)
Record Cycle := {
  feed_request : result Response;
  twitter_data_csv : option (list Row);
  at_post : nat → Env }.

(** [open('twitter_data.csv')] and the reader over it. *)
Definition open_dataset (csv : option (list Row)) : result (list Row) :=
  match csv with
  | Some rows => Ok rows
  | None => Raise FileNotFoundError
  end.

(** [img_path and reply_text] *)
Definition usable_content (content : option string * option string)
    : option (string * string) :=
  match content with
  | (Some img_path, Some reply_text) =>
      if negb (Py.is_empty img_path) && negb (Py.is_empty reply_text)
      then Some (img_path, reply_text) else None
  | _ => None
  end.

Section BotLoop.

Variable list_of_set : gset string → list string.

(** The [for post in posts] loop of [run], from the post of index [i]. *)
Fixpoint reply_to_posts (c : Cycle) (i : nat) (posts : list FeedEntry) (new_replies : Z)
    : Loop Z :=
  match posts with
  | [] => mret new_replies
  | post :: rest =>
      rows ← run_bot (lift (open_dataset (twitter_data_csv c)));
      new_replies ←
        match usable_content (get_random_content (at_post c i) rows) with
        | Some (img_path, reply_text) =>
            replied ← run_bot (reply_to_post list_of_set (at_post c i) post
                                 reply_text img_path);
            if (replied : bool) then sleep 2;; mret (new_replies + 1)%Z
            else mret new_replies
        | None =>
            run_bot (print "Could not find random content");;
            mret new_replies
        end;
      reply_to_posts c (S i) rest new_replies
  end.

(** The body of the [try] of [run]. *)
Definition cycle_body (c : Cycle) (interval : Z) : Loop unit :=
  posts ← run_bot (fetch_latest_posts (feed_request c));
  new_replies ← reply_to_posts c 0 posts 0%Z;
  run_bot (print (if bool_decide (0 < new_replies)%Z
                  then "Replied to " +:+ str_int new_replies +:+ " new posts"
                  else "No new posts to reply to"));;
  sleep interval.

(** One iteration of [while True]. *)
Definition run_cycle (c : Cycle) (interval : Z) : Loop unit :=
  loop_try (cycle_body c interval)
    (λ e, run_bot (print ("Error in main loop: " +:+ exn_str e));;
          run_bot (print "Waiting 30 seconds before retrying...");;
          sleep 30).

(** [run]: the iterations [k], [k + 1], ..., [k + n - 1] of [while True]. *)
Fixpoint run_from (cycles : nat → Cycle) (interval : Z) (k n : nat) : Loop unit :=
  match n with
  | 0 => mret tt
  | S n => run_cycle (cycles k) interval;; run_from cycles interval (S k) n
  end.

Definition run (cycles : nat → Cycle) (interval : Z) (n : nat) : Loop unit :=
  run_from cycles interval 0 n.

End BotLoop.

(** ** The builder: the retries as they unfold *)

(** What the two retry loops do, in order: a page visit or an HTTP request
    for an attempt, and a call [wait_with_backoff(attempt)]. *)
Inductive retry_event :=
| Tried (attempt : nat)
| BackedOff (attempt : nat).

(** [if attempt < max_retries - 1: wait_with_backoff(attempt)] *)
Definition backoff (max_retries attempt : nat) : list retry_event :=
  if bool_decide (attempt < max_retries - 1) then [BackedOff attempt] else [].

(** [get_image_url_from_tweet], with its visits and waits. *)
Fixpoint try_attempts_log (visit : nat → page_load) (max_retries : nat)
    (attempts : list nat) : option string * list retry_event :=
  match attempts with
  | [] => (None, [])
  | attempt :: rest =>
      match visit attempt with
      | LoadRaises _ =>
          let '(found, log) := try_attempts_log visit max_retries rest in
          (found, Tried attempt :: backoff max_retries attempt ++ log)
      | Loaded page =>
          match try_selectors page selectors with
          | Some image_url => (Some image_url, [Tried attempt])
          | None =>
              let '(found, log) := try_attempts_log visit max_retries rest in
              (found, Tried attempt :: backoff max_retries attempt ++ log)
          end
      end
  end.

Definition get_image_url_from_tweet_log (env : BuilderEnv) (tweet_url : string)
    (max_retries : nat) : option string * list retry_event :=
  try_attempts_log (browse env tweet_url) max_retries (seq 0 max_retries).

(** [download_image], with its requests and waits. *)
Fixpoint download_attempts_log (get : nat → result Z) (max_retries : nat)
    (attempts : list nat) : bool * list retry_event :=
  match attempts with
  | [] => (false, [])
  | attempt :: rest =>
      match get attempt with
      | Ok status =>
          if bool_decide (status = 200%Z) then (true, [Tried attempt])
          else if bool_decide (status = 429%Z) then
            let '(done, log) := download_attempts_log get max_retries rest in
            (done, Tried attempt :: backoff max_retries attempt ++ log)
          else (false, [Tried attempt])
      | Raise _ =>
          let '(done, log) := download_attempts_log get max_retries rest in
          (done, Tried attempt :: backoff max_retries attempt ++ log)
      end
  end.

Definition download_image_log (env : BuilderEnv) (image_url save_path : string)
    (max_retries : nat) : bool * list retry_event :=
  download_attempts_log (http_get env image_url) max_retries (seq 0 max_retries).

(** An attempt of [download_image] after which the loop goes on: a rate
    limit answer or an exception. *)
Definition retryable (answer : result Z) : Prop :=
  answer = Ok 429%Z ∨ ∃ e, answer = Raise e.

(** The visits and waits of the attempts [0 .. n - 1] when all of them fail
    and more attempts follow. *)
Definition failed_rounds (n : nat) : list retry_event :=
  concat (map (λ attempt, [Tried attempt; BackedOff attempt]) (seq 0 n)).

(** ** Notions used in the statements on the reply and the loop *)

(** The reference to the post itself: its URI and CID, when it has both. *)
Definition own_ref (post : FeedEntry) : option StrongRef :=
  p ← fe_post post; uri ← pv_uri p; cid ← pv_cid p;
  Some {| sr_uri := uri; sr_cid := cid |}.

(** The root object of the reply a post carries. *)
Definition root_of (post : FeedEntry) : option RootView :=
  reply_info ← fe_reply post; ri_root reply_info.

(** The reference to a root object, when it has a URI and a CID. *)
Definition root_ref (root : RootView) : option StrongRef :=
  uri ← rv_uri root; cid ← rv_cid root;
  Some {| sr_uri := uri; sr_cid := cid |}.

(** The root reference of a reply to [post], whose own reference is
    [parent]: that of the root object the post carries when that object is a
    non-empty dict, and the post itself otherwise. *)
Definition expected_root (post : FeedEntry) (parent : StrongRef) : option StrongRef :=
  match root_of post with
  | Some root => if root_truthy root then root_ref root else Some parent
  | None => Some parent
  end.

(** The parent and root references of a reply to [post], when the keys they
    need are there. *)
Definition thread_anchor (post : FeedEntry) : option (StrongRef * StrongRef) :=
  parent ← own_ref post; root ← expected_root post parent; Some (parent, root).

(** The message of the [except] clauses around the image read. *)
Definition image_error_line (image_path : string) (e : exn) : string :=
  match e with
  | FileNotFoundError => "Image file not found: " +:+ image_path
  | _ => "Error reading image file: " +:+ exn_str e
  end.

Definition is_send (e : effect) : bool :=
  match e with
  | SendImage _ _ _ _ _ => true
  | _ => false
  end.

Definition is_write (e : effect) : bool :=
  match e with
  | WriteReplied _ => true
  | _ => false
  end.

(** The file holds the set the bot has in memory. *)
Definition in_sync (st : BotState) : Prop :=
  load_replied_posts (replied_posts_file st) = Ok (replied_posts st).

(** The URIs of the posts to which a log dispatches a reply. *)
Definition dispatched_to (log : list loop_event) : list string :=
  omap (λ ev, match ev with
              | BotDid (SendImage _ _ _ parent _) => Some (sr_uri parent)
              | _ => None
              end) log.

(** The two-second pauses of a log. *)
Definition is_pause (ev : loop_event) : bool :=
  match ev with
  | Slept seconds => bool_decide (seconds = 2%Z)
  | BotDid _ => false
  end.

(** The writes of the replied-posts file in a log. *)
Definition is_saved (ev : loop_event) : bool :=
  match ev with
  | BotDid (WriteReplied _) => true
  | _ => false
  end.

(** The line that ends the [for] loop's iteration, and the lines and the
    sleep of the [except] clause of [run]. *)
Definition summary_line (new_replies : Z) : string :=
  if bool_decide (0 < new_replies)%Z
  then "Replied to " +:+ str_int new_replies +:+ " new posts"
  else "No new posts to reply to".

Definition error_tail (e : exn) : list loop_event :=
  [BotDid (Print ("Error in main loop: " +:+ exn_str e));
   BotDid (Print "Waiting 30 seconds before retrying...");
   Slept 30].

(** A sleep that ends an iteration: the poll interval or the 30 seconds after
    an error. *)
Definition is_rest (interval : Z) (ev : loop_event) : bool :=
  match ev with
  | Slept seconds => bool_decide (seconds = interval) || bool_decide (seconds = 30%Z)
  | BotDid _ => false
  end.

(** The feed of a cycle, as [fetch_latest_posts] returns it. *)
Definition fetched (c : Cycle) : list FeedEntry :=
  match feed_request c with
  | Ok response =>
      if bool_decide (status_code response = 200%Z)
      then match json_feed response with
           | Ok (Some feed) => feed
           | _ => []
           end
      else []
  | Raise _ => []
  end.

Module LoopSample.

Definition good_feed : result Response :=
  Ok {| status_code := 200;
        json_feed := Ok (Some [Sample.sad_post; Sample.dog_post; Sample.textless_post]) |}.

Definition cycle (request : result Response) : Cycle :=
  {| feed_request := request;
     twitter_data_csv := Some Sample.dataset;
     at_post := λ _, Sample.working |}.

Definition environ : Environ :=
  {| LIST_URI := Some "at://did:plc:x/app.bsky.graph.list/1";
     BLUESKY_USERNAME := Some "rat.bsky.social";
     BLUESKY_PASSWORD := Some "hunter2";
     CHECK_INTERVAL := Some " 90 " |}.

End LoopSample.

(** Further sample inputs: posts that lack a key, collaborators that fail. *)
Module EdgeSample.

(** A post whose dict has no URI. *)
Definition no_uri_post : FeedEntry :=
  {| fe_post := Some {| pv_uri := None; pv_cid := Some "bafyreib2"; pv_author := None;
                        pv_record := Some {| rec_text := Some "hello" |};
                        pv_extra := false |};
     fe_reply := None |}.

(** A reply whose root object has a URI and no CID. *)
Definition broken_root : RootView :=
  {| rv_uri := Some "at://x/0"; rv_cid := None; rv_extra := false |}.

Definition orphan_reply : FeedEntry :=
  {| fe_post := Some (Sample.view "at://x/4" (Some {| rec_text := Some "nice one" |}));
     fe_reply := Some {| ri_root := Some broken_root |} |}.

(** No image file can be read. *)
Definition no_images : Env :=
  {| read_binary := λ _, Raise FileNotFoundError;
     send_image := λ _ _ _ _ _, Ok tt;
     open_for_write := Ok tt;
     randint := λ a _, a |}.

(** The replied-posts file cannot be written. *)
Definition read_only_disk : Env :=
  {| read_binary := λ _, Ok "JFIF";
     send_image := λ _ _ _ _ _, Ok tt;
     open_for_write := Raise (OSError "Read-only file system");
     randint := λ a _, a |}.

(** A feed with a post that has no URI between two that have one. *)
Definition feed_with_gap : result Response :=
  Ok {| status_code := 200;
        json_feed := Ok (Some [Sample.dog_post; no_uri_post; Sample.textless_post]) |}.

(** The dataset file is missing. *)
Definition without_dataset : Cycle :=
  {| feed_request := LoopSample.good_feed;
     twitter_data_csv := None;
     at_post := λ _, Sample.working |}.

(** The feed endpoint answers 503. *)
Definition unavailable : result Response :=
  Ok {| status_code := 503; json_feed := Raise JSONDecodeError |}.

(** The same feed at every iteration. *)
Definition steady (_ : nat) : Cycle := LoopSample.cycle LoopSample.good_feed.

(** An image host that answers 429, then raises, then serves the image; a
    browser whose first visit raises and whose later visits show a photo. *)
Definition flaky : BuilderEnv :=
  {| browse := λ _ attempt,
       match attempt with
       | 0 => LoadRaises "timeout"
       | _ => Loaded (λ _, Located [BuilderSample.sized_photo])
       end;
     http_get := λ _ attempt,
       match attempt with
       | 0 => Ok 429%Z
       | 1 => Raise (RequestError "connection reset")
       | _ => Ok 200%Z
       end |}.

End EdgeSample.

(** ** Facts about strings *)

Lemma append_cons (c : ascii) (a b : string) : String c a +:+ b = String c (a +:+ b).
Proof. reflexivity. Qed.

Lemma append_empty (b : string) : EmptyString +:+ b = b.
Proof. reflexivity. Qed.

Lemma prefix_app (sub s : string) :
  String.prefix sub s = true ↔ ∃ post, s = sub +:+ post.
Proof.
  revert s. induction sub as [|c sub IH]; intros s.
  - split; [intros _; by exists s | by destruct s].
  - destruct s as [|d s]; simpl.
    + split; [done | intros [post Hp]; discriminate].
    + setoid_rewrite append_cons.
      destruct (Ascii.ascii_dec c d) as [->|Hne].
      * rewrite IH. split; intros [post Hp]; exists post; congruence.
      * split; [done | intros [post Hp]; congruence].
Qed.

Lemma contains_nil (sub : string) :
  Py.contains sub EmptyString = String.prefix sub EmptyString || false.
Proof. reflexivity. Qed.

Lemma contains_cons (sub : string) (c : ascii) (s : string) :
  Py.contains sub (String c s) = String.prefix sub (String c s) || Py.contains sub s.
Proof. reflexivity. Qed.

Lemma contains_app (sub s : string) :
  Py.contains sub s = true ↔ ∃ pre post, s = pre +:+ sub +:+ post.
Proof.
  induction s as [|c s IH]; [rewrite contains_nil | rewrite contains_cons].
  - rewrite orb_false_r, prefix_app. split.
    + intros [post Hp]. by exists EmptyString, post.
    + intros [pre [post Hp]]. destruct pre; [by exists post | discriminate].
  - rewrite orb_true_iff, prefix_app, IH. split.
    + intros [[post Hp] | [pre [post Hp]]].
      * by exists EmptyString, post.
      * exists (String c pre), post. by rewrite append_cons, <- Hp.
    + intros [pre [post Hp]]. destruct pre as [|d pre].
      * left. by exists post.
      * right. exists pre, post. rewrite append_cons in Hp. congruence.
Qed.

Lemma lower_empty (s : string) : Py.is_empty (Py.lower s) = Py.is_empty s.
Proof. by destruct s. Qed.

Lemma is_empty_app (a b : string) :
  Py.is_empty (a +:+ b) = Py.is_empty a && Py.is_empty b.
Proof. by destruct a. Qed.

(** ** Facts about the two passes *)

(** A loop that only ever adds members to the detected set. *)
Lemma foldl_adds {A} (f : gset string → A → gset string) (P : A → string → Prop) :
  (∀ det x t, t ∈ f det x ↔ t ∈ det ∨ P x t) →
  ∀ l det t, t ∈ foldl f det l ↔ t ∈ det ∨ ∃ x, x ∈ l ∧ P x t.
Proof.
  intros Hf l. induction l as [|x l IH]; intros det t; simpl.
  - split; [by left | intros [?|[x [Hx _]]]; [done | by apply elem_of_nil in Hx]].
  - rewrite IH, Hf. split.
    + intros [[?|?]|[y [Hy HP]]]; [by left | right; exists x | right; exists y]; split; try done.
      * apply list_elem_of_here.
      * by apply list_elem_of_further.
    + intros [?|[y [Hy HP]]]; [by left; left |].
      apply elem_of_cons in Hy as [->|Hy]; [by left; right | right; by exists y].
Qed.

Lemma elem_of_substring_pass (text_lower : string) (det : gset string) (t : string) :
  t ∈ substring_pass text_lower det ↔
  t ∈ det ∨ ∃ keywords keyword, (t, keywords) ∈ sensitive_topics ∧ keyword ∈ keywords
                                ∧ Py.contains keyword text_lower = true.
Proof.
  unfold substring_pass.
  rewrite (foldl_adds _ (λ entry t, t = entry.1 ∧ ∃ keyword, keyword ∈ entry.2
                                     ∧ Py.contains keyword text_lower = true)).
  - split; (intros [?|H]; [by left | right]).
    + destruct H as [[topic kws] [Hin [-> [kw [Hkw Hc]]]]]. by exists kws, kw.
    + destruct H as [kws [kw [Hin [Hkw Hc]]]]. exists (t, kws). eauto.
  - intros d entry u.
    rewrite (foldl_adds _ (λ keyword u, u = entry.1 ∧ Py.contains keyword text_lower = true)).
    + split; (intros [?|H]; [by left | right]).
      * destruct H as [kw [Hkw [-> Hc]]]. eauto.
      * destruct H as [-> [kw [Hkw Hc]]]. eauto.
    + intros d' kw v. destruct (Py.contains kw text_lower);
        rewrite ?elem_of_union, ?elem_of_singleton; naive_solver.
Qed.

Lemma elem_of_topics_of (phrase : string) (det : gset string) (t : string) :
  t ∈ topics_of phrase det ↔
  t ∈ det ∨ ∃ keywords, (t, keywords) ∈ sensitive_topics ∧ phrase ∈ keywords.
Proof.
  unfold topics_of.
  rewrite (foldl_adds _ (λ entry t, t = entry.1 ∧ phrase ∈ entry.2)).
  - split; (intros [?|H]; [by left | right]).
    + destruct H as [[topic kws] [Hin [-> Hp]]]. by exists kws.
    + destruct H as [kws [Hin Hp]]. by exists (t, kws).
  - intros d entry u. case_bool_decide;
      rewrite ?elem_of_union, ?elem_of_singleton; naive_solver.
Qed.

Lemma elem_of_bigram_pass (words : list string) (det : gset string) (t : string) :
  t ∈ bigram_pass words det ↔
  t ∈ det ∨ ∃ i a b keywords,
              i < length words - 1 ∧ words !! i = Some a ∧ words !! S i = Some b
              ∧ bigram a b ∈ all_keywords
              ∧ (t, keywords) ∈ sensitive_topics ∧ bigram a b ∈ keywords.
Proof.
  unfold bigram_pass.
  rewrite (foldl_adds _ (λ i t, ∃ a b keywords,
              words !! i = Some a ∧ words !! S i = Some b
              ∧ bigram a b ∈ all_keywords
              ∧ (t, keywords) ∈ sensitive_topics ∧ bigram a b ∈ keywords)).
  - split; (intros [?|H]; [by left | right]).
    + destruct H as [i [Hi [a [b [kws H]]]]]. exists i, a, b, kws.
      apply elem_of_seq in Hi. split; [lia | done].
    + destruct H as [i [a [b [kws [Hi H]]]]]. exists i. split.
      * apply elem_of_seq. lia.
      * by exists a, b, kws.
  - intros d i u. destruct (words !! i) as [a|], (words !! S i) as [b|];
      [| naive_solver..].
    case_bool_decide as Hk.
    + rewrite elem_of_topics_of. split; (intros [?|H]; [by left | right]).
      * destruct H as [kws [Hin Hp]]. by exists a, b, kws.
      * destruct H as [a' [b' [kws [[= <-] [[= <-] [_ [Hin Hp]]]]]]]. by exists kws.
    + split; [by left | intros [?|[a' [b' [kws [[= <-] [[= <-] [Hk' _]]]]]]]; done].
Qed.

Lemma elem_of_all_keywords (phrase : string) :
  phrase ∈ all_keywords ↔ ∃ topic keywords, (topic, keywords) ∈ sensitive_topics ∧ phrase ∈ keywords.
Proof.
  unfold all_keywords.
  rewrite (foldl_adds _ (λ entry p, p ∈ entry.2)).
  - split.
    + intros [H|[[topic kws] [Hin Hp]]]; [by apply not_elem_of_empty in H | by exists topic, kws].
    + intros [topic [kws [Hin Hp]]]. right. by exists (topic, kws).
  - intros d entry u. by rewrite elem_of_union, elem_of_list_to_set.
Qed.

Lemma keywords_nonempty (topic keyword : string) (keywords : list string) :
  (topic, keywords) ∈ sensitive_topics → keyword ∈ keywords → Py.is_empty keyword = false.
Proof.
  intros Hin Hkw.
  assert (Forall (λ entry, Forall (λ k, Py.is_empty k = false) entry.2) sensitive_topics) as HF
    by (unfold sensitive_topics; repeat constructor).
  rewrite Forall_forall in HF. specialize (HF _ Hin). simpl in HF.
  rewrite Forall_forall in HF. by apply HF.
Qed.

Lemma has_trigger_substring_iff (text : string) :
  has_trigger_substring text = true ↔
  ∃ topic keywords keyword pre post,
    (topic, keywords) ∈ sensitive_topics ∧ keyword ∈ keywords
    ∧ Py.lower text = pre +:+ keyword +:+ post.
Proof.
  unfold has_trigger_substring. rewrite existsb_exists. split.
  - intros [[topic kws] [Hin Hex]]. apply existsb_exists in Hex as [kw [Hkw Hc]].
    apply contains_app in Hc as [pre [post Hc]].
    exists topic, kws, kw, pre, post. by rewrite <- !list_elem_of_In in *.
  - intros [topic [kws [kw [pre [post [Hin [Hkw Hc]]]]]]].
    exists (topic, kws). rewrite <- list_elem_of_In. split; [done |].
    apply existsb_exists. exists kw. rewrite <- list_elem_of_In. split; [done |].
    apply contains_app. by exists pre, post.
Qed.

Lemma elem_of_adjacent_pairs (words : list string) (p : string) :
  p ∈ adjacent_pairs words ↔
  ∃ i a b, i < length words - 1 ∧ words !! i = Some a ∧ words !! S i = Some b
           ∧ p = bigram a b.
Proof.
  unfold adjacent_pairs. rewrite list_elem_of_omap. split.
  - intros [i [Hi Hp]]. apply elem_of_seq in Hi.
    destruct (words !! i) as [a|] eqn:Ha, (words !! S i) as [b|] eqn:Hb; try discriminate.
    injection Hp as <-. exists i, a, b. repeat split; [lia | done..].
  - intros [i [a [b [Hi [Ha [Hb ->]]]]]]. exists i. split.
    + apply elem_of_seq. lia.
    + by rewrite Ha, Hb.
Qed.

Lemma has_trigger_bigram_false (text : string) :
  has_trigger_bigram text = false →
  ∀ i a b, preprocess_text text !! i = Some a → preprocess_text text !! S i = Some b →
           bigram a b ∉ all_keywords.
Proof.
  unfold has_trigger_bigram. intros Hnone i a b Ha Hb Hin.
  assert (existsb (λ p, bool_decide (p ∈ all_keywords))
                  (adjacent_pairs (preprocess_text text)) = true) as Hyes; [|congruence].
  apply existsb_exists. exists (bigram a b). split; [| by apply bool_decide_eq_true].
  apply list_elem_of_In, elem_of_adjacent_pairs. exists i, a, b.
  pose proof (lookup_lt_Some _ _ _ Hb). repeat split; [lia | done..].
Qed.

(** What the two passes detect. *)
Lemma elem_of_detect (text topic : string) :
  topic ∈ detect text ↔
  (∃ keywords keyword, (topic, keywords) ∈ sensitive_topics ∧ keyword ∈ keywords
                       ∧ Py.contains keyword (Py.lower text) = true)
  ∨ (∃ i a b keywords,
        preprocess_text text !! i = Some a ∧ preprocess_text text !! S i = Some b
        ∧ (topic, keywords) ∈ sensitive_topics ∧ bigram a b ∈ keywords).
Proof.
  unfold detect. rewrite elem_of_bigram_pass, elem_of_substring_pass. split.
  - intros [[H|H]|H]; [by apply not_elem_of_empty in H | by left |].
    destruct H as [i [a [b [kws [_ [Ha [Hb [_ [Hin Hp]]]]]]]]]. right. by exists i, a, b, kws.
  - intros [H|H]; [by left; right |].
    destruct H as [i [a [b [kws [Ha [Hb [Hin Hp]]]]]]]. right. exists i, a, b, kws.
    pose proof (lookup_lt_Some _ _ _ Hb). repeat split; [lia | done.. | | done | done].
    apply elem_of_all_keywords. by exists topic, kws.
Qed.

Lemma detect_nothing (text : string) :
  has_trigger_substring text = false → has_trigger_bigram text = false → detect text = ∅.
Proof.
  intros Hsub Hbi. apply set_eq. intros topic. rewrite elem_of_detect. split.
  - intros [[kws [kw [Hin [Hkw Hc]]]] | [i [a [b [kws [Ha [Hb [Hin Hp]]]]]]]].
    + assert (has_trigger_substring text = true) as Hyes; [|congruence].
      apply contains_app in Hc as [pre [post Hc]].
      apply has_trigger_substring_iff. by exists topic, kws, kw, pre, post.
    + exfalso. apply (has_trigger_bigram_false text Hbi i a b Ha Hb).
      apply elem_of_all_keywords. by exists topic, kws.
  - intros H. by apply not_elem_of_empty in H.
Qed.

Section ClassifierFacts.

Variable list_of_set : gset string → list string.
Hypothesis list_of_set_perm : ∀ s, list_of_set s ≡ₚ elements s.

Lemma elem_of_list_of_set (s : gset string) (t : string) : t ∈ list_of_set s ↔ t ∈ s.
Proof. by rewrite list_of_set_perm, elem_of_elements. Qed.

Lemma list_of_set_empty : list_of_set ∅ = [].
Proof. apply Permutation_nil_r. by rewrite list_of_set_perm, elements_empty. Qed.

Lemma NoDup_list_of_set (s : gset string) : NoDup (list_of_set s).
Proof. rewrite list_of_set_perm. apply NoDup_elements. Qed.

Lemma classify_nonempty (text : string) :
  Py.is_empty text = false →
  contains_sensitive_content list_of_set (Some text)
  = (bool_decide (0 < size (detect text)), list_of_set (detect text)).
Proof. intros H. unfold contains_sensitive_content. by rewrite H. Qed.

Lemma classify_detected (text topic : string) :
  Py.is_empty text = false → topic ∈ detect text →
  (contains_sensitive_content list_of_set (Some text)).1 = true
  ∧ topic ∈ (contains_sensitive_content list_of_set (Some text)).2.
Proof.
  intros Hne Hin. rewrite (classify_nonempty _ Hne). simpl. split.
  - apply bool_decide_eq_true.
    destruct (decide (size (detect text) = 0)) as [Hz|Hnz]; [| lia].
    apply size_empty_iff in Hz. rewrite Hz in Hin. by apply not_elem_of_empty in Hin.
  - by apply elem_of_list_of_set.
Qed.

(** C3: a text whose lowercased form contains a trigger phrase as a substring
    is classified sensitive, and the topic owning the phrase is among the
    detected topics. *)
Theorem trigger_substring_is_sensitive (text topic keyword : string) (keywords : list string) :
  (topic, keywords) ∈ sensitive_topics →
  keyword ∈ keywords →
  (∃ pre post, Py.lower text = pre +:+ keyword +:+ post) →
  (contains_sensitive_content list_of_set (Some text)).1 = true
  ∧ topic ∈ (contains_sensitive_content list_of_set (Some text)).2.
Proof.
  intros Hin Hkw [pre [post Hsub]]. apply classify_detected.
  - rewrite <- lower_empty, Hsub, !is_empty_app, (keywords_nonempty _ _ _ Hin Hkw).
    by rewrite andb_false_r.
  - apply elem_of_detect. left. exists keywords, keyword. repeat split; [done..|].
    apply contains_app. by exists pre, post.
Qed.

(** C4, amended: a text none of whose trigger phrases occurs in its
    lowercased form, and no two adjacent normalized tokens of which make up a
    trigger phrase, is classified not sensitive with no topic; so are the
    absent and the empty text. *)
Theorem no_trigger_not_sensitive :
  (∀ text, has_trigger_substring text = false → has_trigger_bigram text = false →
           contains_sensitive_content list_of_set (Some text) = (false, []))
  ∧ contains_sensitive_content list_of_set None = (false, [])
  ∧ contains_sensitive_content list_of_set (Some EmptyString) = (false, []).
Proof.
  split; [|done]. intros text Hsub Hbi. unfold contains_sensitive_content.
  destruct (Py.is_empty text); [done |].
  rewrite (detect_nothing _ Hsub Hbi), list_of_set_empty.
  by rewrite size_empty.
Qed.

(** C10: the text "movie script" has no normalized token and no adjacent
    token pair equal to a trigger phrase, yet it is classified sensitive with
    topic death, because "rip" occurs inside "script". *)
Theorem substring_pass_matches_inside_words :
  ∃ text,
    Py.contains "script" text = true
    ∧ (∀ w, w ∈ preprocess_text text → w ∉ all_keywords)
    ∧ has_trigger_bigram text = false
    ∧ (contains_sensitive_content list_of_set (Some text)).1 = true
    ∧ "death" ∈ (contains_sensitive_content list_of_set (Some text)).2.
Proof.
  exists "movie script". split; [by vm_compute |]. split; [|split; [by vm_compute |]].
  - assert (preprocess_text "movie script" = ["movie"; "script"]) as -> by (by vm_compute).
    intros w Hw.
    repeat (apply elem_of_cons in Hw as [->|Hw];
            [refine (bool_decide_eq_false_1 _ _); by vm_compute |]).
    by apply elem_of_nil in Hw.
  - apply classify_detected; [done |].
    apply elem_of_detect. left.
    exists ["rip"; "rest in peace"; "passed away"; "death"; "died"; "dead";
            "condolences"; "funeral"; "mourning"; "tragedy"; "fatal"; "killed";
            "loss"; "gone too soon"; "in loving memory"; "memorial"], "rip".
    split; [apply list_elem_of_here |]. split; [apply list_elem_of_here | by vm_compute].
Qed.

End ClassifierFacts.

(** Against C4 as stated: the text "passed, away" contains no trigger phrase,
    and is classified sensitive through its token pair. *)
Lemma pair_without_substring_is_sensitive :
  has_trigger_substring "passed, away" = false
  ∧ contains_sensitive_content elements (Some "passed, away") = (true, ["death"]).
Proof. split; by vm_compute. Qed.

Lemma trigger_substring_is_sensitive_witness :
  (∀ s : gset string, elements s ≡ₚ elements s)
  ∧ ("health", ["hospital"; "sick"; "illness"; "disease"; "cancer"; "surgery";
                "diagnosed"; "treatment"; "health"; "medical"; "recovery"])
      ∈ sensitive_topics
  ∧ "sick" ∈ ["hospital"; "sick"; "illness"; "disease"; "cancer"; "surgery";
              "diagnosed"; "treatment"; "health"; "medical"; "recovery"]
  ∧ (∃ pre post, Py.lower "Feeling SICK today" = pre +:+ "sick" +:+ post)
  ∧ (contains_sensitive_content elements (Some "Feeling SICK today")).1 = true
  ∧ "health" ∈ (contains_sensitive_content elements (Some "Feeling SICK today")).2.
Proof.
  assert (∀ s : gset string, elements s ≡ₚ elements s) as Hperm by (intros s; reflexivity).
  assert (("health", ["hospital"; "sick"; "illness"; "disease"; "cancer"; "surgery";
                      "diagnosed"; "treatment"; "health"; "medical"; "recovery"])
          ∈ sensitive_topics) as Hin by (unfold sensitive_topics; repeat constructor).
  assert ("sick" ∈ ["hospital"; "sick"; "illness"; "disease"; "cancer"; "surgery";
                    "diagnosed"; "treatment"; "health"; "medical"; "recovery"]) as Hkw
    by repeat constructor.
  assert (∃ pre post, Py.lower "Feeling SICK today" = pre +:+ "sick" +:+ post) as Hsub
    by (exists "feeling ", " today"; reflexivity).
  repeat (split; [assumption |]).
  exact (trigger_substring_is_sensitive elements Hperm _ _ _ _ Hin Hkw Hsub).
Defined.

Lemma no_trigger_not_sensitive_witness :
  (∀ s : gset string, elements s ≡ₚ elements s)
  ∧ has_trigger_substring "Check out this cute dog photo!" = false
  ∧ has_trigger_bigram "Check out this cute dog photo!" = false
  ∧ contains_sensitive_content elements (Some "Check out this cute dog photo!") = (false, []).
Proof.
  assert (∀ s : gset string, elements s ≡ₚ elements s) as Hperm by (intros s; reflexivity).
  assert (has_trigger_substring "Check out this cute dog photo!" = false) as Hsub
    by (vm_compute; reflexivity).
  assert (has_trigger_bigram "Check out this cute dog photo!" = false) as Hbi
    by (vm_compute; reflexivity).
  repeat (split; [assumption |]).
  exact (proj1 (no_trigger_not_sensitive elements Hperm) _ Hsub Hbi).
Defined.

Lemma substring_pass_matches_inside_words_witness :
  (∀ s : gset string, elements s ≡ₚ elements s)
  ∧ ∃ text,
      Py.contains "script" text = true
      ∧ (∀ w, w ∈ preprocess_text text → w ∉ all_keywords)
      ∧ has_trigger_bigram text = false
      ∧ (contains_sensitive_content elements (Some text)).1 = true
      ∧ "death" ∈ (contains_sensitive_content elements (Some text)).2.
Proof.
  assert (∀ s : gset string, elements s ≡ₚ elements s) as Hperm by (intros s; reflexivity).
  split; [assumption |].
  exact (substring_pass_matches_inside_words elements Hperm).
Defined.

(** ** Facts about the bot *)

Ltac bot_unfold :=
  unfold mbind, mret, Bot_bind, Bot_ret, result_bind, result_ret, lift, emit, print,
    get_state, put_state, try_except, client_send_image in *.

Lemma only_prints_app (l1 l2 : list effect) :
  only_prints (l1 ++ l2) ↔ only_prints l1 ∧ only_prints l2.
Proof. unfold only_prints. rewrite forallb_app. apply andb_true_iff. Qed.

Lemma only_prints_elem (log : list effect) (e : effect) :
  only_prints log → e ∈ log → is_print e = true.
Proof.
  unfold only_prints. rewrite forallb_forall. intros H Hin. by apply H, list_elem_of_In.
Qed.

Lemma uri_of_Some (post : FeedEntry) (u : string) :
  uri_of post = Some u ↔ ∃ p, fe_post post = Some p ∧ pv_uri p = Some u.
Proof.
  unfold uri_of. destruct (fe_post post) as [p|]; simpl.
  - split; [by exists p | by intros [p' [[= <-] H]]].
  - split; [done | by intros [p' [? _]]].
Qed.

Section BotFacts.

Variable list_of_set : gset string → list string.
Hypothesis list_of_set_perm : ∀ s, list_of_set s ≡ₚ elements s.

Lemma should_reply_extract (post : FeedEntry) :
  should_reply_to_post list_of_set post
  = match extractable_text post with
    | None => Ok (true, "No text content")
    | Some post_text =>
        let c := contains_sensitive_content list_of_set (Some post_text) in
        if c.1 then Ok (false, "Post contains sensitive topics: " +:+ Py.join ", " c.2)
        else Ok (true, "Content appropriate for reply")
    end.
Proof.
  unfold should_reply_to_post, extractable_text.
  destruct (fe_post post) as [p|]; simpl; [|done].
  destruct (pv_record p) as [r|]; simpl; [|done].
  destruct (rec_text r) as [t|]; simpl; [|done].
  destruct (Py.is_empty t); [done |]. by destruct (bool_decide _).
Qed.

Lemma should_reply_total (post : FeedEntry) :
  ∃ b reason, should_reply_to_post list_of_set post = Ok (b, reason).
Proof.
  rewrite should_reply_extract. destruct (extractable_text post) as [t|]; [|eauto].
  cbv zeta. destruct (contains_sensitive_content list_of_set (Some t)).1; eauto.
Qed.

Lemma log_post_details_run (post : FeedEntry) (st : BotState) :
  ∃ log, log_post_details list_of_set post st = (Ok tt, st, log) ∧ only_prints log.
Proof.
  destruct (should_reply_total post) as [b [reason Hs]].
  unfold log_post_details. bot_unfold. rewrite Hs. simpl.
  eexists. split; reflexivity.
Qed.

Lemma send_as_root_run (env : Env) (post : FeedEntry) (reply_text img : string)
    (st : BotState) :
  (∃ k, send_as_root env post reply_text img st = (Raise (KeyError k), st, []))
  ∨ ∃ parent root,
      send_as_root env post reply_text img st
      = (send_image env reply_text img "A cute dog" parent root, st,
         [SendImage reply_text img "A cute dog" parent root]).
Proof.
  unfold send_as_root. bot_unfold. simpl.
  destruct (fe_post post) as [p|]; simpl; [|eauto].
  destruct (pv_uri p) as [uri|]; simpl; [|eauto].
  destruct (pv_cid p) as [cid|]; simpl; [|eauto].
  right. exists {| sr_uri := uri; sr_cid := cid |}, {| sr_uri := uri; sr_cid := cid |}.
  by destruct (send_image _ _ _ _ _ _) as [[]|].
Qed.

Lemma send_reply_run (env : Env) (post : FeedEntry) (reply_text img : string)
    (st : BotState) :
  (∃ k, send_reply env post reply_text img st = (Raise (KeyError k), st, []))
  ∨ ∃ parent root,
      send_reply env post reply_text img st
      = (send_image env reply_text img "A cute dog" parent root, st,
         [SendImage reply_text img "A cute dog" parent root]).
Proof.
  unfold send_reply.
  destruct (extract_reply_info post) as [[parent|] [root|]];
    try apply send_as_root_run.
  destruct (post_truthy parent && root_truthy root); [|apply send_as_root_run].
  bot_unfold. simpl.
  destruct (pv_uri parent) as [pu|]; simpl; [|eauto].
  destruct (pv_cid parent) as [pc|]; simpl; [|eauto].
  destruct (rv_uri root) as [ru|]; simpl; [|eauto].
  destruct (rv_cid root) as [rc|]; simpl; [|eauto].
  right. exists {| sr_uri := pu; sr_cid := pc |}, {| sr_uri := ru; sr_cid := rc |}.
  by destruct (send_image _ _ _ _ _ _) as [[]|].
Qed.

Lemma save_replied_posts_run (env : Env) (st : BotState) :
  save_replied_posts list_of_set env st
  = match open_for_write env with
    | Ok _ => (Ok tt,
               {| replied_posts := replied_posts st;
                  replied_posts_file := JsonStrings (list_of_set (replied_posts st)) |},
               [WriteReplied (list_of_set (replied_posts st))])
    | Raise e => (Raise e, st, [])
    end.
Proof.
  unfold save_replied_posts. bot_unfold. simpl. by destruct (open_for_write env).
Qed.

#[local] Arguments should_reply_to_post : simpl never.
#[local] Arguments log_post_details : simpl never.
#[local] Arguments send_reply : simpl never.
#[local] Arguments save_replied_posts : simpl never.

Lemma dispatch_and_record_run (env : Env) (post : FeedEntry) (u reply_text img : string)
    (st : BotState) :
  let st1 := {| replied_posts := marked st u; replied_posts_file := replied_posts_file st |} in
  let st2 := {| replied_posts := marked st u;
                replied_posts_file := JsonStrings (list_of_set (marked st u)) |} in
  (∃ k, dispatch_and_record list_of_set env post u reply_text img st
        = (Raise (KeyError k), st, []))
  ∨ ∃ parent root,
      let d := SendImage reply_text img "A cute dog" parent root in
      (∃ e, send_image env reply_text img "A cute dog" parent root = Raise e
            ∧ dispatch_and_record list_of_set env post u reply_text img st
              = (Raise e, st, [d]))
      ∨ (send_image env reply_text img "A cute dog" parent root = Ok tt
         ∧ ((∃ e, open_for_write env = Raise e
                  ∧ dispatch_and_record list_of_set env post u reply_text img st
                    = (Raise e, st1, [d]))
            ∨ (∃ line, open_for_write env = Ok tt
                  ∧ dispatch_and_record list_of_set env post u reply_text img st
                    = (Ok true, st2, [d; WriteReplied (list_of_set (marked st u)); Print line])))).
Proof.
  intros st1 st2. unfold dispatch_and_record.
  destruct (send_reply_run env post reply_text img st) as [[k Hk]|[parent [root Hs]]].
  - left. exists k. bot_unfold. by rewrite Hk.
  - right. exists parent, root. simpl.
    destruct (send_image env reply_text img "A cute dog" parent root) as [[]|e] eqn:Hsend.
    + right. split; [done |]. bot_unfold. rewrite Hs. simpl.
      rewrite save_replied_posts_run. simpl.
      destruct (open_for_write env) as [[]|e] eqn:Hw; simpl.
      * right. eexists. split; [done | reflexivity].
      * left. exists e. by split.
    + left. exists e. split; [done |]. bot_unfold. by rewrite Hs.
Qed.

Lemma reply_to_post_outcome (env : Env) (post : FeedEntry) (reply_text image_path : string)
    (st : BotState) (u : string) :
  uri_of post = Some u →
  ∃ r st' log,
    reply_to_post list_of_set env post reply_text image_path st = (r, st', log)
    ∧ reply_outcome list_of_set env st u reply_text image_path r st' log.
Proof.
  intros Hu. apply uri_of_Some in Hu as [p [Hp Hpu]].
  destruct (should_reply_total post) as [b [reason Hs]].
  unfold reply_to_post. bot_unfold. rewrite Hp. simpl. rewrite Hpu. simpl.
  rewrite Hs. simpl. destruct b; simpl.
  - case_bool_decide as Hmem; simpl.
    + do 3 eexists. split; [reflexivity |]. by apply outcome_skipped.
    + destruct (log_post_details_run post st) as [pre [Hl Hpre]]. rewrite Hl. simpl.
      destruct (read_binary env image_path) as [img|e] eqn:Hr.
      * destruct (dispatch_and_record_run env post u reply_text img st)
          as [[k ->]|[parent [root [[e [Hsend ->]]|[Hsend [[e [Hw ->]]|[line [Hw ->]]]]]]]];
          simpl; do 3 eexists; (split; [reflexivity |]).
        -- by eapply outcome_no_anchor.
        -- by eapply (outcome_send_failed _ _ _ _ _ _ pre img parent root e).
        -- by eapply (outcome_save_failed _ _ _ _ _ _ pre img parent root e).
        -- by eapply (outcome_replied _ _ _ _ _ _ pre img parent root).
      * destruct e; simpl; do 3 eexists; (split; [reflexivity |]);
          by eapply outcome_image_unreadable.
  - do 3 eexists. split; [reflexivity |]. by apply outcome_skipped.
Qed.

Lemma reply_to_post_no_uri (env : Env) (post : FeedEntry) (reply_text image_path : string)
    (st : BotState) :
  uri_of post = None →
  ∃ k, reply_to_post list_of_set env post reply_text image_path st
       = (Raise (KeyError k), st, []).
Proof.
  unfold uri_of, reply_to_post. bot_unfold.
  destruct (fe_post post) as [p|]; simpl; [|eauto].
  destruct (pv_uri p); simpl; [done | eauto].
Qed.

Lemma reply_outcome_marked (env : Env) (st st' : BotState) (u reply_text image_path : string)
    (log : list effect) :
  reply_outcome list_of_set env st u reply_text image_path (Ok true) st' log →
  u ∈ replied_posts st'.
Proof.
  inversion 1; subst; simpl. unfold marked. apply elem_of_union_r. by apply elem_of_singleton.
Qed.

Lemma elem_of_tail_log (pre tail : list effect) (e : effect) :
  only_prints pre → is_print e = false → e ∈ pre ++ tail → e ∈ tail.
Proof.
  intros Hpre He Hin. apply elem_of_app in Hin as [Hin|Hin]; [|done].
  pose proof (only_prints_elem _ _ Hpre Hin). congruence.
Qed.

(** The replied-post set only grows. *)
Lemma reply_outcome_grows (env : Env) (st st' : BotState) (u reply_text image_path : string)
    (r : result bool) (log : list effect) :
  reply_outcome list_of_set env st u reply_text image_path r st' log →
  replied_posts st ⊆ replied_posts st'.
Proof.
  inversion 1; subst; simpl; try done; unfold marked; apply union_subseteq_l.
Qed.

(** C1: on a post whose URI is in the replied-post set, [reply_to_post]
    returns false, leaves the set and the file as they are and logs console
    lines only (no dispatch, no write); hence after a call that returned
    true, any further call on the same post, from a state whose set has not
    lost a member, returns false without a dispatch. *)
Theorem already_replied_is_noop :
  (∀ env post reply_text image_path st u,
      uri_of post = Some u → u ∈ replied_posts st →
      ∃ log, reply_to_post list_of_set env post reply_text image_path st
             = (Ok false, st, log)
             ∧ only_prints log)
  ∧ (∀ env post reply_text image_path st st1 log1,
        reply_to_post list_of_set env post reply_text image_path st = (Ok true, st1, log1) →
        ∀ st2 env' reply_text' image_path',
          replied_posts st1 ⊆ replied_posts st2 →
          ∃ log2, reply_to_post list_of_set env' post reply_text' image_path' st2
                  = (Ok false, st2, log2)
                  ∧ only_prints log2).
Proof.
  assert (∀ env post reply_text image_path st u,
      uri_of post = Some u → u ∈ replied_posts st →
      ∃ log, reply_to_post list_of_set env post reply_text image_path st
             = (Ok false, st, log)
             ∧ only_prints log) as Hnoop.
  { intros env post reply_text image_path st u Hu Hmem.
    destruct (reply_to_post_outcome env post reply_text image_path st u Hu)
      as [r [st' [log [Hrun Hout]]]].
    rewrite Hrun. inversion Hout; subst; try done. by exists log. }
  split; [exact Hnoop |].
  intros env post reply_text image_path st st1 log1 Hrun st2 env' reply_text' image_path'
    Hkept.
  destruct (uri_of post) as [u|] eqn:Hu.
  - destruct (reply_to_post_outcome env post reply_text image_path st u Hu)
      as [r [st' [log [Hrun' Hout]]]].
    rewrite Hrun in Hrun'. injection Hrun' as <- <- <-.
    apply (Hnoop env' post reply_text' image_path' st2 u Hu).
    apply Hkept. by eapply reply_outcome_marked.
  - destruct (reply_to_post_no_uri env post reply_text image_path st Hu) as [k Hk].
    congruence.
Qed.


(** C5: when no text can be extracted from the post (a key on the way to it
    is absent), the gate answers true with the reason "No text content"; when
    a text is extracted, it answers false exactly when the classifier marks
    the text sensitive, the reason then listing the matched topics joined by
    a comma and a space. *)
Theorem gate_fails_open :
  (∀ post, extractable_text post = None →
           should_reply_to_post list_of_set post = Ok (true, "No text content"))
  ∧ (∀ post post_text,
        extractable_text post = Some post_text →
        let c := contains_sensitive_content list_of_set (Some post_text) in
        should_reply_to_post list_of_set post
        = Ok (negb c.1,
              if c.1 then "Post contains sensitive topics: " +:+ Py.join ", " c.2
              else "Content appropriate for reply")).
Proof.
  split.
  - intros post Hnone. by rewrite should_reply_extract, Hnone.
  - intros post post_text Hsome c. rewrite should_reply_extract, Hsome. cbv zeta.
    fold c. by destruct c.1.
Qed.

(** C8: after a save that could write the file, loading the file gives back
    the saved set; loading does not depend on the order of the array in the
    file; and a missing or undecodable file loads as the empty set. *)
Theorem replied_posts_roundtrip :
  (∀ env st,
      open_for_write env = Ok tt →
      ∃ st' log, save_replied_posts list_of_set env st = (Ok tt, st', log)
                 ∧ replied_posts st' = replied_posts st
                 ∧ load_replied_posts (replied_posts_file st') = Ok (replied_posts st))
  ∧ (∀ uris uris', uris ≡ₚ uris' →
        load_replied_posts (JsonStrings uris) = load_replied_posts (JsonStrings uris'))
  ∧ load_replied_posts NoFile = Ok ∅
  ∧ load_replied_posts NotJson = Ok ∅.
Proof.
  split; [|split; [|done]].
  - intros env st Hw. rewrite save_replied_posts_run, Hw.
    do 2 eexists. split; [reflexivity |]. split; [done |].
    simpl. unfold load_replied_posts. simpl. f_equal.
    rewrite (list_of_set_perm (replied_posts st)). apply list_to_set_elements_L.
  - intros uris uris' Hperm. unfold load_replied_posts. simpl. by rewrite Hperm.
Qed.

End BotFacts.





(** ** The theorems at sample inputs *)

Lemma already_replied_is_noop_witness :
  uri_of Sample.dog_post = Some "at://x/1"
  ∧ "at://x/1" ∈ replied_posts Sample.replied_x1
  ∧ ∃ log, reply_to_post elements Sample.working Sample.dog_post "woof" "rat.jpg"
             Sample.replied_x1
           = (Ok false, Sample.replied_x1, log)
           ∧ only_prints log.
Proof.
  assert (uri_of Sample.dog_post = Some "at://x/1") as Hu by reflexivity.
  assert ("at://x/1" ∈ replied_posts Sample.replied_x1) as Hmem
    by (simpl; by apply elem_of_singleton).
  repeat (split; [assumption |]).
  exact (proj1 (already_replied_is_noop elements) Sample.working Sample.dog_post
           "woof" "rat.jpg" Sample.replied_x1 "at://x/1" Hu Hmem).
Defined.


Lemma gate_fails_open_witness :
  extractable_text Sample.textless_post = None
  ∧ should_reply_to_post elements Sample.textless_post = Ok (true, "No text content").
Proof.
  assert (extractable_text Sample.textless_post = None) as Hnone by reflexivity.
  split; [assumption |].
  exact (proj1 (gate_fails_open elements) Sample.textless_post Hnone).
Defined.

Lemma replied_posts_roundtrip_witness :
  (∀ s : gset string, elements s ≡ₚ elements s)
  ∧ open_for_write Sample.working = Ok tt
  ∧ ∃ st' log, save_replied_posts elements Sample.working Sample.replied_x1 = (Ok tt, st', log)
               ∧ replied_posts st' = replied_posts Sample.replied_x1
               ∧ load_replied_posts (replied_posts_file st')
                 = Ok (replied_posts Sample.replied_x1).
Proof.
  assert (∀ s : gset string, elements s ≡ₚ elements s) as Hperm by (intros s; reflexivity).
  assert (open_for_write Sample.working = Ok tt) as Hw by reflexivity.
  repeat (split; [assumption |]).
  exact (proj1 (replied_posts_roundtrip elements Hperm) Sample.working Sample.replied_x1 Hw).
Defined.


(** ** Facts about the builder *)

Lemma insert_by_id_perm (e : entry) (l : list entry) : insert_by_id e l ≡ₚ e :: l.
Proof.
  induction l as [|e' l IH]; simpl; [done |].
  case_bool_decide; [done |]. rewrite IH. apply Permutation_swap.
Qed.

Lemma sort_by_id_perm (l : list entry) : sort_by_id l ≡ₚ l.
Proof.
  induction l as [|e l IH]; simpl; [done |]. by rewrite insert_by_id_perm, IH.
Qed.

Lemma insert_by_id_sorted (e : entry) (l : list entry) :
  StronglySorted id_le l → StronglySorted id_le (insert_by_id e l).
Proof.
  induction 1 as [|e' l Hl IH Hall]; simpl.
  - by repeat constructor.
  - case_bool_decide as Hle.
    + constructor; [by constructor |]. constructor; [done |].
      eapply Forall_impl; [exact Hall |]. unfold id_le. intros; lia.
    + constructor; [done |]. rewrite insert_by_id_perm.
      constructor; [unfold id_le; lia | done].
Qed.

Lemma sort_by_id_sorted (l : list entry) : StronglySorted id_le (sort_by_id l).
Proof.
  induction l as [|e l IH]; simpl; [constructor | by apply insert_by_id_sorted].
Qed.

(** The sort is stable: entries of equal ID keep their order. *)
Lemma insert_by_id_stable (k : Z) (e : entry) (l : list entry) :
  filter (λ x, entry_id x = k) (insert_by_id e l) = filter (λ x, entry_id x = k) (e :: l).
Proof.
  induction l as [|e' l IH]; simpl; [done |].
  case_bool_decide as Hle; [done |].
  rewrite filter_cons, IH, !filter_cons.
  repeat case_decide; try done; lia.
Qed.

Lemma sort_by_id_stable (k : Z) (l : list entry) :
  filter (λ x, entry_id x = k) (sort_by_id l) = filter (λ x, entry_id x = k) l.
Proof.
  induction l as [|e l IH]; simpl; [done |].
  by rewrite insert_by_id_stable, !filter_cons, IH.
Qed.

Lemma filter_sorted {A} (R : relation A) (P : A → Prop) `{∀ x, Decision (P x)}
    (l : list A) :
  StronglySorted R l → StronglySorted R (filter P l).
Proof.
  induction 1 as [|x l Hl IH Hall]; [constructor |].
  rewrite filter_cons. case_decide; [|done].
  constructor; [done |]. rewrite Forall_forall in *.
  intros y Hy. apply Hall. by apply list_elem_of_filter in Hy as [_ ?].
Qed.

Lemma process_entry_id (env : BuilderEnv) (images_dir : string) (e : entry) :
  ID (process_entry env images_dir e) = entry_id e.
Proof.
  destruct e as [[id_num url] caption]. unfold process_entry.
  by destruct (match get_image_url_from_tweet env url 3 with Some _ => _ | None => _ end).
Qed.

(** C6: the builder appends to the rows of the output CSV one row per entry
    to process, in order; these entries are the source entries whose ID is at
    least [start_from] and is not the ID of a row already in the CSV, each as
    often as the source has it, in ascending order of ID.  With rows for the
    IDs 1 to 10 and [start_from] 5, every entry processed has an ID of 11 or
    more. *)
Theorem resume_processes_new_ids (env : BuilderEnv) (matches : list entry)
    (output_csv : option (list Row)) (images_dir : string) (start_from : Z) :
  let eligible (e : entry) :=
    (start_from ≤ entry_id e)%Z ∧ ¬ ∃ r, r ∈ default [] output_csv ∧ ID r = entry_id e in
  ∃ todo appended,
    process_twitter_data env matches output_csv images_dir start_from
    = default [] output_csv ++ appended
    ∧ map ID appended = map entry_id todo
    ∧ StronglySorted id_le todo
    ∧ (∀ e, e ∈ todo ↔ e ∈ map read_match matches ∧ eligible e)
    ∧ todo ≡ₚ filter (λ e, (start_from ≤ entry_id e)%Z
                           ∧ entry_id e ∉ processed_ids output_csv)
                     (map read_match matches)
    ∧ (start_from = 5%Z →
       (∀ i, (1 ≤ i ≤ 10)%Z → ∃ r, r ∈ default [] output_csv ∧ ID r = i) →
       ∀ e, e ∈ todo → (11 ≤ entry_id e)%Z).
Proof.
  intros eligible.
  assert (∀ i, i ∈ processed_ids output_csv ↔ ∃ r, r ∈ default [] output_csv ∧ ID r = i)
    as Hids.
  { intros i. destruct output_csv as [rows|]; simpl.
    - rewrite elem_of_list_to_set, list_elem_of_fmap. naive_solver.
    - split; [intros H; by apply not_elem_of_empty in H |].
      intros [r [Hr _]]. by apply elem_of_nil in Hr. }
  set (todo := entries_to_process (extract_data_from_code matches)
                 (processed_ids output_csv) start_from).
  assert (∀ e, e ∈ todo ↔ e ∈ map read_match matches ∧ eligible e) as Hmem.
  { intros e. unfold todo, entries_to_process, extract_data_from_code, eligible.
    rewrite list_elem_of_filter, sort_by_id_perm, Hids. tauto. }
  exists todo, (map (process_entry env images_dir) todo).
  split; [done |]. split; [|split; [|split; [done |split]]].
  - rewrite map_map. apply map_ext. apply process_entry_id.
  - apply filter_sorted, sort_by_id_sorted.
  - unfold todo, entries_to_process, extract_data_from_code.
    by rewrite sort_by_id_perm.
  - intros -> Hrows e He. apply Hmem in He as [_ [Hge Hnew]].
    destruct (decide (entry_id e ≤ 10)%Z) as [Hle|]; [|lia].
    exfalso. apply Hnew, Hrows. lia.
Qed.

Lemma int_raises_ValueError (s : string) (e : exn) : Py.int s = Raise e → e = ValueError.
Proof.
  unfold Py.int. destruct (match Py.int_rstrip (Py.int_lstrip s) with
                           | EmptyString => _ | String c s' => _ end); congruence.
Qed.

Lemma attribute_raises_ValueError (attribute : option string) (e : exn) :
  attribute_or_0 attribute = Raise e → e = ValueError.
Proof.
  destruct attribute as [s|]; simpl; [|done].
  destruct (Py.is_empty s); [done | apply int_raises_ValueError].
Qed.

(** [check_element] keeps exactly the accepted elements. *)
Lemma check_element_accepted (element : Element) :
  check_element element = Ok (if accepted element then el_src element else None).
Proof.
  unfold check_element, accepted, avatar_like, size_passes.
  destruct (el_src element) as [src|]; [|done].
  rewrite negb_orb. destruct (negb (Py.is_empty src) && _); simpl; [|done].
  destruct (attribute_or_0 (el_width element)) as [w|e] eqn:Hw; simpl.
  - destruct (attribute_or_0 (el_height element)) as [h|e] eqn:Hh; simpl.
    + by destruct (bool_decide _).
    + by rewrite (attribute_raises_ValueError _ _ Hh).
  - by rewrite (attribute_raises_ValueError _ _ Hw).
Qed.

Lemma valid_images_accepted (elements : list Element) :
  valid_images elements
  = Ok (omap (λ e, if accepted e then el_src e else None) elements).
Proof.
  induction elements as [|e l IH]; simpl; [done |].
  rewrite check_element_accepted, IH. simpl.
  by destruct (if accepted e then el_src e else None).
Qed.

Lemma valid_images_first (pre post : list Element) (e : Element) (src : string) :
  (∀ e', e' ∈ pre → accepted e' = false) → accepted e = true → el_src e = Some src →
  ∃ others, valid_images (pre ++ e :: post) = Ok (src :: others).
Proof.
  intros Hpre Hacc Hsrc. rewrite valid_images_accepted, omap_app. simpl.
  rewrite Hacc, Hsrc. eexists.
  replace (omap _ pre) with (@nil string); [reflexivity |].
  induction pre as [|e' pre IH]; simpl; [done |].
  rewrite (Hpre e') by apply list_elem_of_here.
  apply IH. intros e'' He''. apply Hpre. by apply list_elem_of_further.
Qed.

Lemma valid_images_none (elements : list Element) :
  (∀ e, e ∈ elements → accepted e = false) → valid_images elements = Ok [].
Proof.
  intros Hnone. rewrite valid_images_accepted. f_equal.
  induction elements as [|e l IH]; simpl; [done |].
  rewrite (Hnone e) by apply list_elem_of_here.
  apply IH. intros e' He'. apply Hnone. by apply list_elem_of_further.
Qed.

Lemma try_selectors_first (page : string → located) (sel_pre sel_post : list string)
    (sel : string) (els_pre els_post : list Element) (e : Element) (src : string) :
  (∀ s, s ∈ sel_pre → barren page s) →
  page sel = Located (els_pre ++ e :: els_post) →
  (∀ e', e' ∈ els_pre → accepted e' = false) → accepted e = true → el_src e = Some src →
  try_selectors page (sel_pre ++ sel :: sel_post) = Some (largest_format src).
Proof.
  intros Hbarren Hpage Hpre Hacc Hsrc.
  induction sel_pre as [|s sel_pre IH]; simpl.
  - rewrite Hpage.
    by destruct (valid_images_first els_pre els_post e src Hpre Hacc Hsrc) as [others ->].
  - assert (try_selectors page (sel_pre ++ sel :: sel_post) = Some (largest_format src))
      as Hrest.
    { apply IH. intros s' Hs'. apply Hbarren. by apply list_elem_of_further. }
    destruct (Hbarren s) as [->|[els [-> Hels]]]; [apply list_elem_of_here | done |].
    by rewrite (valid_images_none els Hels).
Qed.

Lemma try_attempts_step (visit : nat → page_load) (attempt : nat) (rest : list nat) :
  try_attempts visit (attempt :: rest)
  = match attempt_finds (visit attempt) with
    | Some image_url => Some image_url
    | None => try_attempts visit rest
    end.
Proof. simpl. by destruct (visit attempt). Qed.

Lemma try_attempts_first (visit : nat → page_load) (start len k : nat) (u : string) :
  start ≤ k < start + len →
  (∀ j, start ≤ j < k → attempt_finds (visit j) = None) →
  attempt_finds (visit k) = Some u →
  try_attempts visit (seq start len) = Some u.
Proof.
  revert start. induction len as [|len IH]; intros start Hk Hbefore Hfound; [lia |].
  cbn [seq]. rewrite try_attempts_step.
  destruct (decide (start = k)) as [->|Hne]; [by rewrite Hfound |].
  rewrite Hbefore by lia. apply IH; [lia | | done]. intros j Hj. apply Hbefore. lia.
Qed.

Lemma try_attempts_none (visit : nat → page_load) (start len : nat) :
  (∀ j, start ≤ j < start + len → attempt_finds (visit j) = None) →
  try_attempts visit (seq start len) = None.
Proof.
  revert start. induction len as [|len IH]; intros start Hnone; [done |].
  cbn [seq]. rewrite try_attempts_step, Hnone by lia.
  apply IH. intros j Hj. apply Hnone. lia.
Qed.

Lemma before_first_split (sep s : string) :
  Py.contains sep s = true → ∃ post, s = Py.before_first sep s +:+ sep +:+ post.
Proof.
  induction s as [|c s IH].
  - rewrite contains_nil, orb_false_r. intros Hp. cbn [Py.before_first]. rewrite Hp.
    by apply prefix_app in Hp.
  - rewrite contains_cons. intros Hc. cbn [Py.before_first].
    destruct (String.prefix sep (String c s)) eqn:Hp.
    + by apply prefix_app in Hp.
    + destruct (IH Hc) as [post Hpost]. exists post. rewrite append_cons. congruence.
Qed.

Lemma before_first_prefix (sep s : string) :
  ∃ rest, s = Py.before_first sep s +:+ rest.
Proof.
  induction s as [|c s [rest IH]]; cbn [Py.before_first].
  - exists EmptyString. by destruct (String.prefix sep EmptyString).
  - destruct (String.prefix sep (String c s)); [by exists (String c s) |].
    exists rest. rewrite append_cons. congruence.
Qed.

Lemma append_assoc (a b c : string) : (a +:+ b) +:+ c = a +:+ b +:+ c.
Proof. induction a as [|x a IH]; [done |]. by rewrite !append_cons, IH. Qed.

(** What [before_first] returns holds no occurrence of the separator. *)
Lemma before_first_free (sep s : string) :
  Py.is_empty sep = false → Py.contains sep (Py.before_first sep s) = false.
Proof.
  intros Hsep.
  assert (Py.contains sep EmptyString = false) as Hnil.
  { rewrite contains_nil, orb_false_r. by destruct sep. }
  induction s as [|c s IH]; cbn [Py.before_first].
  - by destruct (String.prefix sep EmptyString).
  - destruct (String.prefix sep (String c s)) eqn:Hp; [done |].
    rewrite contains_cons, IH, orb_false_r.
    destruct (String.prefix sep (String c (Py.before_first sep s))) eqn:Hq; [|done].
    apply prefix_app in Hq as [post Hq].
    destruct (before_first_prefix sep s) as [rest Hrest].
    assert (String.prefix sep (String c s) = true) as Hyes; [|congruence].
    apply prefix_app. exists (post +:+ rest).
    rewrite <- append_assoc, <- Hq, append_cons. congruence.
Qed.

(** C9, amended: the builder returns what the first attempt that finds an
    image finds, and nothing when no attempt does; on a page, it takes the
    first selector in priority order that yields an accepted element and, in
    it, the first accepted element, one whose source is not empty, holds
    neither "profile" nor "avatar" in lowercase, and passes the size test:
    a width or height attribute that is present and not an integer literal
    lets the element in, otherwise width times height must exceed 10000, an
    absent or empty attribute counting as 0 (so an element with both absent
    is not accepted); the URL is returned with what follows its first
    "?format=" replaced by "jpg&name=large", and unchanged when it has
    none. *)
Theorem first_accepted_image_selected :
  (∀ env tweet_url max_retries k u,
      k < max_retries →
      (∀ j, j < k → attempt_finds (browse env tweet_url j) = None) →
      attempt_finds (browse env tweet_url k) = Some u →
      get_image_url_from_tweet env tweet_url max_retries = Some u)
  ∧ (∀ env tweet_url max_retries,
        (∀ j, j < max_retries → attempt_finds (browse env tweet_url j) = None) →
        get_image_url_from_tweet env tweet_url max_retries = None)
  ∧ (∀ page sel_pre sel sel_post els_pre e els_post src,
        selectors = sel_pre ++ sel :: sel_post →
        (∀ s, s ∈ sel_pre → barren page s) →
        page sel = Located (els_pre ++ e :: els_post) →
        (∀ e', e' ∈ els_pre → accepted e' = false) →
        accepted e = true → el_src e = Some src →
        attempt_finds (Loaded page) = Some (largest_format src))
  ∧ (∀ e, check_element e = Ok (if accepted e then el_src e else None))
  ∧ (∀ e, accepted e = true ↔
          ∃ src, el_src e = Some src ∧ Py.is_empty src = false
                 ∧ Py.contains "profile" (Py.lower src) = false
                 ∧ Py.contains "avatar" (Py.lower src) = false
                 ∧ ((∃ err, attribute_or_0 (el_width e) = Raise err)
                    ∨ (∃ w err, attribute_or_0 (el_width e) = Ok w
                                ∧ attribute_or_0 (el_height e) = Raise err)
                    ∨ (∃ w h, attribute_or_0 (el_width e) = Ok w
                              ∧ attribute_or_0 (el_height e) = Ok h
                              ∧ (10000 < w * h)%Z)))
  ∧ (attribute_or_0 None = Ok 0%Z ∧ attribute_or_0 (Some EmptyString) = Ok 0%Z)
  ∧ (∀ e, el_width e = None → el_height e = None → accepted e = false)
  ∧ (∀ url, Py.contains "?format=" url = false → largest_format url = url)
  ∧ (∀ url, Py.contains "?format=" url = true →
            ∃ pre post, url = pre +:+ "?format=" +:+ post
                        ∧ Py.contains "?format=" pre = false
                        ∧ largest_format url = pre +:+ "?format=jpg&name=large").
Proof.
  split; [|split; [|split; [|split; [|split; [|split; [|split; [|split]]]]]]].
  - intros env tweet_url max_retries k u Hk Hbefore Hfound.
    unfold get_image_url_from_tweet.
    apply try_attempts_first with (k := k); [lia | | done].
    intros j Hj. apply Hbefore. lia.
  - intros env tweet_url max_retries Hnone. unfold get_image_url_from_tweet.
    apply try_attempts_none. intros j Hj. apply Hnone. lia.
  - intros page sel_pre sel sel_post els_pre e els_post src Hsel Hbarren Hpage Hpre Hacc Hsrc.
    unfold attempt_finds. rewrite Hsel. by eapply try_selectors_first.
  - apply check_element_accepted.
  - intros e. split.
    + unfold accepted, avatar_like, size_passes. intros Hacc.
      destruct (el_src e) as [src|]; [|done]. exists src.
      apply andb_true_iff in Hacc as [Hacc Hsize].
      apply andb_true_iff in Hacc as [Hne Hav].
      apply negb_true_iff in Hne. apply negb_true_iff, orb_false_iff in Hav as [Hp Ha].
      repeat (split; [done |]).
      destruct (attribute_or_0 (el_width e)) as [w|err]; [| left; by exists err].
      right. destruct (attribute_or_0 (el_height e)) as [h|err]; [| left; by exists w, err].
      right. exists w, h. apply bool_decide_eq_true in Hsize. by repeat split.
    + intros [src [Hsrc [Hne [Hp [Ha Hsize]]]]].
      unfold accepted, avatar_like, size_passes. rewrite Hsrc, Hne, Hp, Ha. simpl.
      destruct Hsize as [[err ->]|[[w [err [-> ->]]]|[w [h [-> [-> Harea]]]]]]; try done.
      by apply bool_decide_eq_true.
  - done.
  - intros e Hw Hh. unfold accepted, size_passes. rewrite Hw, Hh. simpl.
    destruct (el_src e); [|done]. by rewrite andb_false_r.
  - intros url Hno. unfold largest_format. by rewrite Hno.
  - intros url Hyes. unfold largest_format. rewrite Hyes.
    destruct (before_first_split _ _ Hyes) as [post Hpost].
    exists (Py.before_first "?format=" url), post. split; [done |].
    split; [by apply before_first_free | done].
Qed.

(** Against C9 as stated: an image whose [width] and [height] attributes are
    absent is not avatar like, and is dropped: a page showing only it yields
    no URL. *)
Lemma unsized_photo_is_dropped :
  el_width BuilderSample.unsized_photo = None
  ∧ el_height BuilderSample.unsized_photo = None
  ∧ (∃ src, el_src BuilderSample.unsized_photo = Some src ∧ avatar_like src = false)
  ∧ check_element BuilderSample.unsized_photo = Ok None
  ∧ get_image_url_from_tweet (BuilderSample.showing [BuilderSample.unsized_photo])
      "https://twitter.com/a/status/1" 3 = None.
Proof.
  split; [done |]. split; [done |]. split; [|split; by vm_compute].
  eexists. split; [reflexivity | by vm_compute].
Qed.

Lemma first_accepted_image_selected_witness :
  accepted BuilderSample.sized_photo = true
  ∧ attempt_finds (browse (BuilderSample.showing
                             [BuilderSample.avatar; BuilderSample.unsized_photo;
                              BuilderSample.sized_photo]) "https://twitter.com/a/status/1" 0)
    = Some "https://pbs.twimg.com/media/GabcXYZ?format=jpg&name=large"
  ∧ get_image_url_from_tweet
      (BuilderSample.showing [BuilderSample.avatar; BuilderSample.unsized_photo;
                              BuilderSample.sized_photo])
      "https://twitter.com/a/status/1" 3
    = Some "https://pbs.twimg.com/media/GabcXYZ?format=jpg&name=large".
Proof.
  assert (accepted BuilderSample.sized_photo = true) as Hacc by (by vm_compute).
  assert (attempt_finds (browse (BuilderSample.showing
                             [BuilderSample.avatar; BuilderSample.unsized_photo;
                              BuilderSample.sized_photo]) "https://twitter.com/a/status/1" 0)
          = Some "https://pbs.twimg.com/media/GabcXYZ?format=jpg&name=large") as Hfound.
  { change (Some "https://pbs.twimg.com/media/GabcXYZ?format=jpg&name=large")
      with (Some (largest_format "https://pbs.twimg.com/media/GabcXYZ?format=png&name=small")).
    refine (proj1 (proj2 (proj2 first_accepted_image_selected))
              (λ _, Located [BuilderSample.avatar; BuilderSample.unsized_photo;
                              BuilderSample.sized_photo])
              [] _ _ [BuilderSample.avatar; BuilderSample.unsized_photo]
              BuilderSample.sized_photo [] _ eq_refl _ eq_refl _ Hacc eq_refl).
    - intros s Hs. by apply elem_of_nil in Hs.
    - intros e' He'.
      repeat (apply elem_of_cons in He' as [->|He']; [by vm_compute |]).
      by apply elem_of_nil in He'. }
  repeat (split; [assumption |]).
  refine (proj1 first_accepted_image_selected _ _ 3 0 _ _ _ Hfound); [lia |].
  intros j Hj. lia.
Defined.

Lemma resume_processes_new_ids_witness :
  (∀ i, (1 ≤ i ≤ 10)%Z → ∃ r, r ∈ BuilderSample.csv_1_to_10 ∧ ID r = i)
  ∧ ∃ todo appended,
      process_twitter_data (BuilderSample.showing [BuilderSample.sized_photo])
        BuilderSample.source (Some BuilderSample.csv_1_to_10) "downloaded_images" 5
      = BuilderSample.csv_1_to_10 ++ appended
      ∧ map ID appended = map entry_id todo
      ∧ StronglySorted id_le todo
      ∧ ∀ e, e ∈ todo → (11 ≤ entry_id e)%Z.
Proof.
  assert (∀ i, (1 ≤ i ≤ 10)%Z → ∃ r, r ∈ BuilderSample.csv_1_to_10 ∧ ID r = i) as Hrows.
  { intros i Hi. exists (BuilderSample.row i). split; [|done].
    unfold BuilderSample.csv_1_to_10. apply list_elem_of_fmap. exists i. split; [done |].
    apply elem_of_seqZ. lia. }
  split; [assumption |].
  destruct (resume_processes_new_ids (BuilderSample.showing [BuilderSample.sized_photo])
              BuilderSample.source (Some BuilderSample.csv_1_to_10) "downloaded_images" 5)
    as [todo [appended [Hrun [Hids [Hsorted [_ [_ Hnew]]]]]]].
  exists todo, appended. repeat (split; [assumption |]).
  exact (Hnew eq_refl Hrows).
Defined.

(** ** The code at sample inputs *)

Example classify_condolence :
  contains_sensitive_content elements (Some "So sorry for your loss, RIP")
  = (true, ["grief"; "death"]).
Proof. by vm_compute. Qed.

Example classify_dog_photo :
  contains_sensitive_content elements (Some "Check out this cute dog photo!") = (false, []).
Proof. by vm_compute. Qed.

Example preprocess_sample :
  preprocess_text "  It's a  Break-up,  sadly! " = ["its"; "a"; "breakup"; "sadly"].
Proof. by vm_compute. Qed.

Example gate_on_sad_post :
  should_reply_to_post elements Sample.sad_post
  = Ok (false, "Post contains sensitive topics: grief, death").
Proof. by vm_compute. Qed.

Example reply_sent_and_recorded :
  ∃ log,
    reply_to_post elements Sample.working Sample.dog_post "woof" "rat.jpg" Sample.fresh
    = (Ok true,
       {| replied_posts := {["at://x/1"]}; replied_posts_file := JsonStrings ["at://x/1"] |},
       log)
    ∧ filter (λ e, is_print e = false) log
      = [ReadImage "rat.jpg";
         SendImage "woof" "JFIF" "A cute dog"
           {| sr_uri := "at://x/1"; sr_cid := "bafyreib2" |}
           {| sr_uri := "at://x/1"; sr_cid := "bafyreib2" |};
         WriteReplied ["at://x/1"]].
Proof. eexists. split; by vm_compute. Qed.

Example retry_after_failed_dispatch :
  let '(r1, st1, _) :=
    reply_to_post elements Sample.client_down Sample.dog_post "woof" "rat.jpg" Sample.fresh in
  let '(r2, st2, _) :=
    reply_to_post elements Sample.working Sample.dog_post "woof" "rat.jpg" st1 in
  let '(r3, st3, _) :=
    reply_to_post elements Sample.working Sample.dog_post "woof" "rat.jpg" st2 in
  (r1, r2, r3) = (Ok false, Ok true, Ok false)
  ∧ st1 = Sample.fresh ∧ st3 = st2 ∧ replied_posts st2 = {["at://x/1"]}.
Proof. by vm_compute. Qed.

Example sad_post_is_skipped :
  ∃ line, reply_to_post elements Sample.working Sample.sad_post "woof" "rat.jpg" Sample.fresh
          = (Ok false, Sample.fresh, [Print line]).
Proof. eexists. by vm_compute. Qed.

Example random_content_sample :
  get_random_content Sample.working Sample.dataset
  = (Some "downloaded_images/twitter_10.jpg", Some "one").
Proof. by vm_compute. Qed.

Example scan_for_missing_id : scan_rows 999 Sample.dataset = (None, None).
Proof. by vm_compute. Qed.

Example resume_sample :
  map ID (process_twitter_data (BuilderSample.showing [BuilderSample.sized_photo])
            BuilderSample.source (Some BuilderSample.csv_1_to_10) "downloaded_images" 5)
  = [1; 2; 3; 4; 5; 6; 7; 8; 9; 10; 11; 12; 13]%Z.
Proof. by vm_compute. Qed.

Example process_entry_sample :
  process_entry (BuilderSample.showing [BuilderSample.sized_photo]) "downloaded_images"
    (11%Z, "https://twitter.com/a/status/111/photo/1", "eleven")
  = {| ID := 11; Twitter_URL := "https://twitter.com/a/status/111/photo/1";
       Local_Image_Path := "downloaded_images/twitter_111.jpg"; Reply_Text := "eleven" |}.
Proof. by vm_compute. Qed.

Example odd_sized_photo_is_kept :
  check_element BuilderSample.odd_sized_photo
  = Ok (Some "https://pbs.twimg.com/media/GabcXYZ?format=png&name=small").
Proof. by vm_compute. Qed.

(** ** Further facts about the classifier *)

Lemma lower_char_fixed (c : ascii) : Py.lower_char (Py.lower_char c) = Py.lower_char c.
Proof. destruct c as [[] [] [] [] [] [] [] []]; reflexivity. Qed.

Lemma chars_app (a b : string) :
  list_ascii_of_string (a +:+ b) = list_ascii_of_string a ++ list_ascii_of_string b.
Proof. induction a as [|c a IH]; [done |]. rewrite append_cons. simpl. by rewrite IH. Qed.

Lemma lower_chars (s : string) :
  Forall (λ c, Py.lower_char c = c) (list_ascii_of_string (Py.lower s)).
Proof.
  induction s as [|c s IH]; simpl; constructor; [apply lower_char_fixed | done].
Qed.

Lemma lstrip_chars (P : ascii → Prop) (s : string) :
  Forall P (list_ascii_of_string s) → Forall P (list_ascii_of_string (Py.lstrip s)).
Proof.
  induction s as [|c s IH]; simpl; [done |]. intros Hall.
  destruct (Py.isspace c); [| done]. apply IH. by inversion Hall.
Qed.

Lemma rstrip_chars (P : ascii → Prop) (s : string) :
  Forall P (list_ascii_of_string s) → Forall P (list_ascii_of_string (Py.rstrip s)).
Proof.
  induction s as [|c s IH]; simpl; [done |]. intros Hall. inversion Hall; subst.
  destruct (Py.isspace c && Py.is_empty (Py.rstrip s)); simpl; [constructor |].
  constructor; [done | by apply IH].
Qed.

Lemma filter_chars_chars (P : ascii → Prop) (keep : ascii → bool) (s : string) :
  Forall P (list_ascii_of_string s) →
  Forall (λ c, P c ∧ keep c = true) (list_ascii_of_string (Py.filter_chars keep s)).
Proof.
  induction s as [|c s IH]; simpl; [constructor |]. intros Hall. inversion Hall; subst.
  destruct (keep c) eqn:Hkeep; simpl; [constructor |]; auto.
Qed.

Lemma split_from_tokens (P : ascii → Prop) (s cur w : string) :
  Forall P (list_ascii_of_string s) →
  Forall (λ c, P c ∧ Py.isspace c = false) (list_ascii_of_string cur) →
  w ∈ Py.split_from cur s →
  Py.is_empty w = false
  ∧ Forall (λ c, P c ∧ Py.isspace c = false) (list_ascii_of_string w).
Proof.
  revert cur. induction s as [|c s IH]; intros cur Hs Hcur; simpl.
  - destruct (Py.is_empty cur) eqn:Hempty; intros Hw.
    + by apply elem_of_nil in Hw.
    + apply list_elem_of_singleton in Hw as ->. by split.
  - inversion Hs; subst. destruct (Py.isspace c) eqn:Hspace.
    + destruct (Py.is_empty cur) eqn:Hempty; intros Hw.
      * apply (IH EmptyString); [done | constructor | done].
      * apply elem_of_cons in Hw as [->|Hw]; [by split |].
        apply (IH EmptyString); [done | constructor | done].
    + apply IH; [done |]. rewrite chars_app. apply Forall_app. split; [done |].
      simpl. by repeat constructor.
Qed.

(** X1: every token of [preprocess_text] is non-empty and is made of
    alphanumeric characters that lowercasing leaves alone; none is
    whitespace. *)
Theorem tokens_are_lowercase_alphanumeric (text w : string) :
  w ∈ preprocess_text text →
  Py.is_empty w = false
  ∧ Forall (λ c, Py.isalnum c = true ∧ Py.isspace c = false ∧ Py.lower_char c = c)
           (list_ascii_of_string w).
Proof.
  unfold preprocess_text, Py.split, Py.strip. intros Hw.
  pose proof (lower_chars text) as Hlow.
  apply lstrip_chars, rstrip_chars in Hlow.
  apply (filter_chars_chars _ (λ c, Py.isalnum c || Py.isspace c)) in Hlow.
  destruct (split_from_tokens _ _ EmptyString w Hlow (Forall_nil_2 _) Hw) as [Hne Hall].
  split; [done |]. eapply Forall_impl; [exact Hall |].
  intros c [[Hfix Hkeep] Hspace]. rewrite Hspace, orb_false_r in Hkeep. done.
Qed.

Lemma tokens_are_lowercase_alphanumeric_witness :
  "breakup" ∈ preprocess_text "  It's a  Break-up,  sadly! "
  ∧ Py.is_empty "breakup" = false
  ∧ Forall (λ c, Py.isalnum c = true ∧ Py.isspace c = false ∧ Py.lower_char c = c)
           (list_ascii_of_string "breakup").
Proof.
  assert ("breakup" ∈ preprocess_text "  It's a  Break-up,  sadly! ") as Hin.
  { assert (preprocess_text "  It's a  Break-up,  sadly! " = ["its"; "a"; "breakup"; "sadly"])
      as -> by (vm_compute; reflexivity).
    repeat constructor. }
  split; [assumption |].
  exact (tokens_are_lowercase_alphanumeric _ _ Hin).
Defined.

(** X2: two texts with the same lowercased form are classified alike. *)
Theorem classification_ignores_case (list_of_set : gset string → list string)
    (text1 text2 : string) :
  Py.lower text1 = Py.lower text2 →
  contains_sensitive_content list_of_set (Some text1)
  = contains_sensitive_content list_of_set (Some text2).
Proof.
  intros Hlow. unfold contains_sensitive_content, detect, preprocess_text.
  rewrite <- (lower_empty text1), <- (lower_empty text2), Hlow. reflexivity.
Qed.

Lemma classification_ignores_case_witness :
  Py.lower "Rest In PEACE" = Py.lower "rest in peace"
  ∧ contains_sensitive_content elements (Some "Rest In PEACE")
    = contains_sensitive_content elements (Some "rest in peace").
Proof.
  assert (Py.lower "Rest In PEACE" = Py.lower "rest in peace") as Hlow by reflexivity.
  split; [assumption |].
  exact (classification_ignores_case elements _ _ Hlow).
Defined.

Section ClassifierMore.

Variable list_of_set : gset string → list string.
Hypothesis list_of_set_perm : ∀ s, list_of_set s ≡ₚ elements s.

(** X3: the topics returned are without repetition; the flag is true exactly
    when some topic is returned; and a topic is returned exactly when one of
    its trigger phrases occurs in the lowercased text or is made up of two
    adjacent normalized tokens. *)
Theorem detected_topics_are_exact (text : string) :
  let r := contains_sensitive_content list_of_set (Some text) in
  NoDup r.2
  ∧ (r.1 = true ↔ r.2 ≠ [])
  ∧ ∀ topic,
      topic ∈ r.2 ↔
      ∃ keywords keyword,
        (topic, keywords) ∈ sensitive_topics ∧ keyword ∈ keywords
        ∧ ((∃ pre post, Py.lower text = pre +:+ keyword +:+ post)
           ∨ (∃ i a b, preprocess_text text !! i = Some a
                       ∧ preprocess_text text !! S i = Some b
                       ∧ keyword = bigram a b)).
Proof.
  assert (∀ topic, topic ∈ detect text ↔
      ∃ keywords keyword,
        (topic, keywords) ∈ sensitive_topics ∧ keyword ∈ keywords
        ∧ ((∃ pre post, Py.lower text = pre +:+ keyword +:+ post)
           ∨ (∃ i a b, preprocess_text text !! i = Some a
                       ∧ preprocess_text text !! S i = Some b
                       ∧ keyword = bigram a b))) as Hdetect.
  { intros topic. rewrite elem_of_detect. split.
    - intros [[kws [kw [Hin [Hkw Hc]]]]|[i [a [b [kws [Ha [Hb [Hin Hp]]]]]]]].
      + exists kws, kw. repeat split; [done.. |]. left. by apply contains_app.
      + exists kws, (bigram a b). repeat split; [done.. |]. right. by exists i, a, b.
    - intros [kws [kw [Hin [Hkw [Hsub|[i [a [b [Ha [Hb ->]]]]]]]]]].
      + left. exists kws, kw. repeat split; [done.. |]. by apply contains_app.
      + right. by exists i, a, b, kws. }
  destruct (Py.is_empty text) eqn:Hempty.
  - destruct text; [|done]. simpl. split; [constructor |]. split; [done |].
    intros topic. split; [intros H; by apply elem_of_nil in H |].
    intros Hyes. apply Hdetect in Hyes. revert Hyes. by vm_compute.
  - rewrite (classify_nonempty list_of_set text Hempty). simpl.
    split; [apply NoDup_list_of_set, list_of_set_perm |]. split.
    + rewrite bool_decide_eq_true. split.
      * intros Hsize Hnil.
        assert (size (detect text) = 0) as Hz; [|lia].
        apply size_empty_iff. intros topic. split; [|intros H; by apply not_elem_of_empty in H].
        intros Hin. apply (elem_of_list_of_set list_of_set list_of_set_perm) in Hin.
        rewrite Hnil in Hin. by apply elem_of_nil in Hin.
      * intros Hne. destruct (decide (size (detect text) = 0)) as [Hz|]; [|lia].
        exfalso. apply Hne. apply size_empty_iff in Hz.
        assert (detect text = ∅) as -> by (by apply leibniz_equiv).
        by apply list_of_set_empty.
    + intros topic. by rewrite (elem_of_list_of_set list_of_set list_of_set_perm).
Qed.

End ClassifierMore.

Lemma detected_topics_are_exact_witness :
  (∀ s : gset string, elements s ≡ₚ elements s)
  ∧ NoDup (contains_sensitive_content elements (Some "So sorry for your loss, RIP")).2.
Proof.
  assert (∀ s : gset string, elements s ≡ₚ elements s) as Hperm by (intros s; reflexivity).
  split; [assumption |].
  exact (proj1 (detected_topics_are_exact elements Hperm "So sorry for your loss, RIP")).
Defined.

(** ** Further facts about the reply *)

Section ReplyMore.

Variable list_of_set : gset string → list string.

#[local] Arguments should_reply_to_post : simpl never.
#[local] Arguments log_post_details : simpl never.
#[local] Arguments send_reply : simpl never.
#[local] Arguments save_replied_posts : simpl never.

Lemma send_as_root_exact (env : Env) (post : FeedEntry) (reply_text img : string)
    (st : BotState) :
  match own_ref post with
  | Some p =>
      send_as_root env post reply_text img st
      = (send_image env reply_text img "A cute dog" p p, st,
         [SendImage reply_text img "A cute dog" p p])
  | None => ∃ k, send_as_root env post reply_text img st = (Raise (KeyError k), st, [])
  end.
Proof.
  unfold own_ref, send_as_root. bot_unfold. simpl.
  destruct (fe_post post) as [p|]; simpl; [|eauto].
  destruct (pv_uri p) as [uri|]; simpl; [|eauto].
  destruct (pv_cid p) as [cid|]; simpl; [|eauto].
  by destruct (send_image _ _ _ _ _ _) as [[]|].
Qed.

Lemma send_reply_exact (env : Env) (post : FeedEntry) (reply_text img : string)
    (st : BotState) :
  match thread_anchor post with
  | Some (p, r) =>
      send_reply env post reply_text img st
      = (send_image env reply_text img "A cute dog" p r, st,
         [SendImage reply_text img "A cute dog" p r])
  | None => ∃ k, send_reply env post reply_text img st = (Raise (KeyError k), st, [])
  end.
Proof.
  pose proof (send_as_root_exact env post reply_text img st) as Hroot.
  unfold thread_anchor, expected_root, root_of, send_reply, extract_reply_info.
  destruct (fe_reply post) as [ri|]; simpl.
  2: { destruct (fe_post post); simpl; destruct (own_ref post); simpl; done. }
  destruct (ri_root ri) as [root|]; simpl.
  2: { destruct (fe_post post); simpl; destruct (own_ref post); simpl; done. }
  destruct (fe_post post) as [parent|] eqn:Hpost; simpl.
  2: { unfold own_ref in *. rewrite Hpost in *. simpl in *. done. }
  destruct (root_truthy root) eqn:Hroot_truthy.
  - destruct (post_truthy parent) eqn:Hparent_truthy; simpl.
    + unfold own_ref, root_ref. rewrite Hpost. bot_unfold. simpl.
      destruct (pv_uri parent) as [pu|]; simpl; [|eauto].
      destruct (pv_cid parent) as [pc|]; simpl; [|eauto].
      destruct (rv_uri root) as [ru|]; simpl; [|eauto].
      destruct (rv_cid root) as [rc|]; simpl; [|eauto].
      by destruct (send_image _ _ _ _ _ _) as [[]|].
    + assert (own_ref post = None) as Hnone.
      { unfold own_ref. rewrite Hpost. simpl. unfold post_truthy in Hparent_truthy.
        destruct (pv_uri parent); [|done]. exfalso. revert Hparent_truthy. by cbv. }
      rewrite Hnone in *. done.
  - rewrite andb_false_r. destruct (own_ref post); simpl; done.
Qed.

Lemma dispatch_and_record_exact (env : Env) (post : FeedEntry) (u reply_text img : string)
    (st : BotState) :
  match thread_anchor post with
  | None =>
      ∃ k, dispatch_and_record list_of_set env post u reply_text img st
           = (Raise (KeyError k), st, [])
  | Some (p, r) =>
      let d := SendImage reply_text img "A cute dog" p r in
      match send_image env reply_text img "A cute dog" p r with
      | Raise e =>
          dispatch_and_record list_of_set env post u reply_text img st = (Raise e, st, [d])
      | Ok _ =>
          match open_for_write env with
          | Raise e =>
              dispatch_and_record list_of_set env post u reply_text img st
              = (Raise e,
                 {| replied_posts := marked st u;
                    replied_posts_file := replied_posts_file st |},
                 [d])
          | Ok _ =>
              dispatch_and_record list_of_set env post u reply_text img st
              = (Ok true,
                 {| replied_posts := marked st u;
                    replied_posts_file := JsonStrings (list_of_set (marked st u)) |},
                 [d; WriteReplied (list_of_set (marked st u));
                  Print ("Successfully replied to post: " +:+ u)])
          end
      end
  end.
Proof.
  pose proof (send_reply_exact env post reply_text img st) as Hsend.
  unfold dispatch_and_record.
  destruct (thread_anchor post) as [[p r]|].
  - simpl. bot_unfold. rewrite Hsend.
    destruct (send_image env reply_text img "A cute dog" p r) as [[]|e]; [|done].
    simpl. rewrite save_replied_posts_run. simpl.
    by destruct (open_for_write env) as [[]|e].
  - destruct Hsend as [k Hk]. exists k. bot_unfold. by rewrite Hk.
Qed.

(** [reply_to_post] on a post with a URI, branch by branch. *)
Lemma reply_to_post_exact (env : Env) (post : FeedEntry) (reply_text image_path : string)
    (st : BotState) (u : string) :
  uri_of post = Some u →
  let run := reply_to_post list_of_set env post reply_text image_path st in
  ∃ b reason,
    should_reply_to_post list_of_set post = Ok (b, reason)
    ∧ if negb b then
        run = (Ok false, st,
               [Print ("Skipping reply to post " +:+ u +:+ ": " +:+ reason)])
      else if bool_decide (u ∈ replied_posts st) then
        run = (Ok false, st, [Print ("Already replied to post: " +:+ u)])
      else
        ∃ pre, only_prints pre ∧
          match read_binary env image_path with
          | Raise e =>
              run = (Ok false, st,
                     pre ++ [ReadImage image_path; Print (image_error_line image_path e)])
          | Ok img =>
              match thread_anchor post with
              | None =>
                  ∃ k, run = (Ok false, st,
                              pre ++ [ReadImage image_path;
                                      Print ("Error sending reply: "
                                             +:+ exn_str (KeyError k))])
              | Some (p, r) =>
                  let d := SendImage reply_text img "A cute dog" p r in
                  match send_image env reply_text img "A cute dog" p r with
                  | Raise e =>
                      run = (Ok false, st,
                             pre ++ [ReadImage image_path; d;
                                     Print ("Error sending reply: " +:+ exn_str e)])
                  | Ok _ =>
                      match open_for_write env with
                      | Raise e =>
                          run = (Ok false,
                                 {| replied_posts := marked st u;
                                    replied_posts_file := replied_posts_file st |},
                                 pre ++ [ReadImage image_path; d;
                                         Print ("Error sending reply: " +:+ exn_str e)])
                      | Ok _ =>
                          run = (Ok true,
                                 {| replied_posts := marked st u;
                                    replied_posts_file :=
                                      JsonStrings (list_of_set (marked st u)) |},
                                 pre ++ [ReadImage image_path; d;
                                         WriteReplied (list_of_set (marked st u));
                                         Print ("Successfully replied to post: " +:+ u)])
                      end
                  end
              end
          end.
Proof.
  intros Hu run. apply uri_of_Some in Hu as [p0 [Hp Hpu]].
  destruct (should_reply_total list_of_set post) as [b [reason Hs]].
  exists b, reason. split; [done |]. subst run.
  unfold reply_to_post. bot_unfold. rewrite Hp. simpl. rewrite Hpu. simpl.
  rewrite Hs. simpl. destruct b; simpl; [|done].
  case_bool_decide as Hmem; simpl; [done |].
  destruct (log_post_details_run list_of_set post st) as [pre [Hl Hpre]]. rewrite Hl. simpl.
  exists pre. split; [done |].
  destruct (read_binary env image_path) as [img|e] eqn:Hr; [| by destruct e].
  pose proof (dispatch_and_record_exact env post u reply_text img st) as Hd.
  destruct (thread_anchor post) as [[p r]|].
  - simpl in Hd.
    destruct (send_image env reply_text img "A cute dog" p r) as [[]|e]; [| by rewrite Hd].
    destruct (open_for_write env) as [[]|e]; by rewrite Hd.
  - destruct Hd as [k Hk]. exists k. by rewrite Hk.
Qed.

End ReplyMore.

Ltac reply_cases los env post txt path st u Hu Hrun :=
  let b := fresh "b" in
  let Hexact := fresh "Hexact" in
  destruct (reply_to_post_exact los env post txt path st u Hu) as [b [reason [Hgate Hexact]]];
  cbv zeta in Hexact; rewrite Hrun in Hexact;
  destruct b; simpl in Hexact;
  [ destruct (bool_decide (u ∈ replied_posts st)) eqn:Hmem;
    [ | destruct Hexact as [pre [Hpre Hexact]];
        destruct (read_binary env path) as [img|eread] eqn:Hread;
        [ destruct (thread_anchor post) as [[p r0]|] eqn:Hanchor;
          [ cbv zeta in Hexact;
            destruct (send_image env txt img "A cute dog" p r0) as [[]|esend] eqn:Hsend;
            [ destruct (open_for_write env) as [[]|ewrite] eqn:Hwrite | ]
          | destruct Hexact as [k Hexact] ]
        | ] ]
  | ];
  injection Hexact as -> -> ->.

Lemma tail_of_log (pre tail : list effect) (e : effect) :
  only_prints pre → is_print e = false → e ∈ pre ++ tail ↔ e ∈ tail.
Proof.
  intros Hpre He. split; [by apply elem_of_tail_log |].
  intros Hin. apply elem_of_app. by right.
Qed.

Lemma filter_prints (P : effect → bool) (pre : list effect) :
  only_prints pre → (∀ e, is_print e = true → P e = false) →
  filter (λ e, P e = true) pre = [].
Proof.
  intros Hpre HP. induction pre as [|e pre IH]; [done |].
  apply only_prints_app with (l1 := [e]) in Hpre as [He Hpre].
  rewrite filter_cons, IH by done. unfold only_prints in He. simpl in He.
  rewrite andb_true_r in He. rewrite (HP e He). by case_decide.
Qed.

Lemma thread_anchor_parent (post : FeedEntry) (p r : StrongRef) :
  thread_anchor post = Some (p, r) →
  own_ref post = Some p ∧ expected_root post p = Some r ∧ uri_of post = Some (sr_uri p).
Proof.
  unfold thread_anchor. destruct (own_ref post) as [p'|] eqn:Hown; simpl; [|done].
  destruct (expected_root post p') as [r'|] eqn:Hroot; simpl; [|done].
  intros [= <- <-]. repeat split; [done |].
  unfold own_ref, uri_of in *. destruct (fe_post post) as [pv|]; simpl in *; [|done].
  destruct (pv_uri pv); simpl in *; [|done]. destruct (pv_cid pv); simpl in *; [|done].
  by injection Hown as <-.
Qed.

Section ReplyGuards.

Variable list_of_set : gset string → list string.

(** X4: a post whose text the classifier marks sensitive is skipped before
    anything else happens: the call returns false, the state is untouched,
    and the one line logged gives the topics; no image is read and nothing is
    dispatched, whether or not the post was replied to before. *)
Theorem sensitive_post_is_skipped (env : Env) (post : FeedEntry)
    (reply_text image_path u text : string) (st : BotState) :
  uri_of post = Some u →
  extractable_text post = Some text →
  (contains_sensitive_content list_of_set (Some text)).1 = true →
  reply_to_post list_of_set env post reply_text image_path st
  = (Ok false, st,
     [Print ("Skipping reply to post " +:+ u +:+ ": Post contains sensitive topics: "
             +:+ Py.join ", " (contains_sensitive_content list_of_set (Some text)).2)]).
Proof.
  intros Hu Htext Hsens.
  destruct (reply_to_post_exact list_of_set env post reply_text image_path st u Hu)
    as [b [reason [Hgate Hexact]]].
  rewrite should_reply_extract, Htext in Hgate. cbv zeta in Hgate.
  rewrite Hsens in Hgate. injection Hgate as <- <-. exact Hexact.
Qed.

(** X5: on a post without a URI the call raises [KeyError], on the key that
    is absent, before any effect: nothing is logged and the state is
    untouched. *)
Theorem missing_uri_raises (env : Env) (post : FeedEntry) (reply_text image_path : string)
    (st : BotState) :
  uri_of post = None →
  reply_to_post list_of_set env post reply_text image_path st
  = (Raise (KeyError (match fe_post post with Some _ => "uri" | None => "post" end)),
     st, []).
Proof.
  unfold uri_of, reply_to_post. bot_unfold.
  destruct (fe_post post) as [p|]; simpl; [|done].
  by destruct (pv_uri p).
Qed.

(** X6: when the gate lets the post through, the post was not replied to and
    the image cannot be read, the call returns false with the state
    untouched; its log reads the image, dispatches nothing and writes
    nothing, and ends with the line that tells a missing file from another
    failure. *)
Theorem unreadable_image_stops (env : Env) (post : FeedEntry)
    (reply_text image_path u reason : string) (st : BotState) (e : exn) :
  uri_of post = Some u →
  should_reply_to_post list_of_set post = Ok (true, reason) →
  u ∉ replied_posts st →
  read_binary env image_path = Raise e →
  ∃ pre,
    only_prints pre
    ∧ reply_to_post list_of_set env post reply_text image_path st
      = (Ok false, st,
         pre ++ [ReadImage image_path; Print (image_error_line image_path e)]).
Proof.
  intros Hu Hgate Hmem Hread.
  destruct (reply_to_post_exact list_of_set env post reply_text image_path st u Hu)
    as [b [reason' [Hgate' Hexact]]].
  rewrite Hgate in Hgate'. injection Hgate' as <- <-. simpl in Hexact.
  rewrite bool_decide_eq_false_2 in Hexact by done.
  destruct Hexact as [pre [Hpre Hexact]]. rewrite Hread in Hexact. by exists pre.
Qed.

(** X7: a call dispatches at most once, and what it dispatches is the reply
    text it was given, the bytes read from the image path and the alt text
    "A cute dog"; the parent reference is the post itself (its URI and CID),
    and the root reference is that of the root object the post carries when
    that object is a non-empty dict, the post itself otherwise. *)
Theorem dispatch_arguments (env : Env) (post : FeedEntry) (reply_text image_path : string)
    (st st' : BotState) (r : result bool) (log : list effect) :
  reply_to_post list_of_set env post reply_text image_path st = (r, st', log) →
  (List.length (filter (λ e, is_send e = true) log) ≤ 1)%nat
  ∧ ∀ text image image_alt parent root,
      SendImage text image image_alt parent root ∈ log →
      text = reply_text ∧ image_alt = "A cute dog"
      ∧ read_binary env image_path = Ok image
      ∧ own_ref post = Some parent
      ∧ uri_of post = Some (sr_uri parent)
      ∧ match root_of post with
        | Some root_view =>
            if root_truthy root_view then root_ref root_view = Some root else root = parent
        | None => root = parent
        end.
Proof.
  intros Hrun.
  assert (∀ parent root, expected_root post parent = Some root →
            match root_of post with
            | Some root_view =>
                if root_truthy root_view then root_ref root_view = Some root
                else root = parent
            | None => root = parent
            end) as Hroot.
  { intros parent root. unfold expected_root. destruct (root_of post) as [rv|].
    - destruct (root_truthy rv); [done | by intros [= ->]].
    - by intros [= ->]. }
  destruct (uri_of post) as [u|] eqn:Hu.
  2: { destruct (reply_to_post_no_uri list_of_set env post reply_text image_path st Hu)
         as [k Hk].
       rewrite Hk in Hrun. injection Hrun as <- <- <-. split; [simpl; lia |].
       intros ????? Hin. by apply elem_of_nil in Hin. }
  reply_cases list_of_set env post reply_text image_path st u Hu Hrun.
  - split; [simpl; lia |]. intros ????? Hin.
    apply list_elem_of_singleton in Hin. discriminate.
  - destruct (thread_anchor_parent _ _ _ Hanchor) as [Hown [Hexp Hpu]].
    split.
    + rewrite filter_app, (filter_prints is_send pre Hpre) by (by intros []). simpl. lia.
    + intros text image image_alt parent root Hin.
      apply tail_of_log in Hin; [| done..].
      apply elem_of_cons in Hin as [?|Hin]; [done |].
      apply elem_of_cons in Hin as [[= -> -> -> -> ->]|Hin].
      * repeat split; try done; [congruence | by apply Hroot].
      * apply elem_of_cons in Hin as [?|Hin]; [done |].
        apply elem_of_cons in Hin as [?|Hin]; [done | by apply elem_of_nil in Hin].
  - destruct (thread_anchor_parent _ _ _ Hanchor) as [Hown [Hexp Hpu]].
    split.
    + rewrite filter_app, (filter_prints is_send pre Hpre) by (by intros []). simpl. lia.
    + intros text image image_alt parent root Hin.
      apply tail_of_log in Hin; [| done..].
      apply elem_of_cons in Hin as [?|Hin]; [done |].
      apply elem_of_cons in Hin as [[= -> -> -> -> ->]|Hin].
      * repeat split; try done; [congruence | by apply Hroot].
      * apply elem_of_cons in Hin as [?|Hin]; [done | by apply elem_of_nil in Hin].
  - destruct (thread_anchor_parent _ _ _ Hanchor) as [Hown [Hexp Hpu]].
    split.
    + rewrite filter_app, (filter_prints is_send pre Hpre) by (by intros []). simpl. lia.
    + intros text image image_alt parent root Hin.
      apply tail_of_log in Hin; [| done..].
      apply elem_of_cons in Hin as [?|Hin]; [done |].
      apply elem_of_cons in Hin as [[= -> -> -> -> ->]|Hin].
      * repeat split; try done; [congruence | by apply Hroot].
      * apply elem_of_cons in Hin as [?|Hin]; [done | by apply elem_of_nil in Hin].
  - split.
    + rewrite filter_app, (filter_prints is_send pre Hpre) by (by intros []). simpl. lia.
    + intros text image image_alt parent root Hin.
      apply tail_of_log in Hin; [| done..].
      apply elem_of_cons in Hin as [?|Hin]; [done |].
      apply elem_of_cons in Hin as [?|Hin]; [done | by apply elem_of_nil in Hin].
  - split.
    + rewrite filter_app, (filter_prints is_send pre Hpre) by (by intros []). simpl. lia.
    + intros text image image_alt parent root Hin.
      apply tail_of_log in Hin; [| done..].
      apply elem_of_cons in Hin as [?|Hin]; [done |].
      apply elem_of_cons in Hin as [?|Hin]; [done | by apply elem_of_nil in Hin].
  - split; [simpl; lia |]. intros ????? Hin.
    apply list_elem_of_singleton in Hin. discriminate.
Qed.

(** X8: when the post carries a root object that is a non-empty dict without
    a URI or without a CID, no reply is dispatched: the call does not return
    true, dispatches nothing and leaves the state untouched. *)
Theorem broken_root_blocks_reply (env : Env) (post : FeedEntry)
    (reply_text image_path : string) (st st' : BotState) (r : result bool)
    (log : list effect) (root_view : RootView) :
  root_of post = Some root_view →
  root_truthy root_view = true →
  root_ref root_view = None →
  reply_to_post list_of_set env post reply_text image_path st = (r, st', log) →
  r ≠ Ok true ∧ st' = st ∧ filter (λ e, is_send e = true) log = [].
Proof.
  intros Hroot Htruthy Href Hrun.
  assert (thread_anchor post = None) as Hnone.
  { unfold thread_anchor, expected_root. rewrite Hroot, Htruthy, Href.
    by destruct (own_ref post). }
  destruct (uri_of post) as [u|] eqn:Hu.
  2: { destruct (reply_to_post_no_uri list_of_set env post reply_text image_path st Hu)
         as [k Hk].
       rewrite Hk in Hrun. by injection Hrun as <- <- <-. }
  reply_cases list_of_set env post reply_text image_path st u Hu Hrun; try congruence.
  - done.
  - repeat split; [done |].
    rewrite filter_app, (filter_prints is_send pre Hpre) by (by intros []). done.
  - repeat split; [done |].
    rewrite filter_app, (filter_prints is_send pre Hpre) by (by intros []). done.
  - done.
Qed.

(** X9: a call never removes a URI from the replied-post set and adds at most
    the URI of the post it was given; the file is either left as it was or
    rewritten with the set the bot then holds. *)
Theorem replied_set_grows_by_uri (env : Env) (post : FeedEntry)
    (reply_text image_path : string) (st st' : BotState) (r : result bool)
    (log : list effect) :
  reply_to_post list_of_set env post reply_text image_path st = (r, st', log) →
  replied_posts st ⊆ replied_posts st'
  ∧ (∀ v, v ∈ replied_posts st' → v ∈ replied_posts st ∨ uri_of post = Some v)
  ∧ (replied_posts_file st' = replied_posts_file st
     ∨ replied_posts_file st' = JsonStrings (list_of_set (replied_posts st'))).
Proof.
  intros Hrun.
  destruct (uri_of post) as [u|] eqn:Hu.
  2: { destruct (reply_to_post_no_uri list_of_set env post reply_text image_path st Hu)
         as [k Hk].
       rewrite Hk in Hrun. injection Hrun as <- <- <-. split; [done |]. split; auto. }
  assert (∀ v, v ∈ marked st u → v ∈ replied_posts st ∨ Some u = Some v) as Hmarked.
  { intros v Hv. unfold marked in Hv. apply elem_of_union in Hv as [Hv|Hv]; [by left |].
    apply elem_of_singleton in Hv as ->. by right. }
  reply_cases list_of_set env post reply_text image_path st u Hu Hrun; simpl;
    first [ by (split; [done |]; split; [intros v Hv; by left | by left])
          | split; [unfold marked; apply union_subseteq_l |];
            split; [exact Hmarked | auto] ].
Qed.

(** X11: when the dispatch succeeds and the file then cannot be written, the
    call returns false; the URI is in the set the bot holds, the file is as
    it was, and nothing was written. *)
Theorem failed_save_marks_in_memory (env : Env) (post : FeedEntry)
    (reply_text image_path : string) (st st' : BotState) (r : result bool)
    (log : list effect) (e : exn) :
  reply_to_post list_of_set env post reply_text image_path st = (r, st', log) →
  open_for_write env = Raise e →
  (∃ d, d ∈ log ∧ dispatch_succeeded env d) →
  r = Ok false
  ∧ (∃ u, uri_of post = Some u ∧ replied_posts st' = replied_posts st ∪ {[u]})
  ∧ replied_posts_file st' = replied_posts_file st
  ∧ filter (λ e, is_write e = true) log = [].
Proof.
  intros Hrun Hw [d [Hd Hok]].
  assert (is_print d = false) as Hnp by (by destruct d).
  destruct (uri_of post) as [u|] eqn:Hu.
  2: { destruct (reply_to_post_no_uri list_of_set env post reply_text image_path st Hu)
         as [k Hk].
       rewrite Hk in Hrun. injection Hrun as <- <- <-. by apply elem_of_nil in Hd. }
  reply_cases list_of_set env post reply_text image_path st u Hu Hrun; try congruence.
  - apply list_elem_of_singleton in Hd as ->. done.
  - split; [done |]. split; [by exists u |]. split; [done |].
    rewrite filter_app, (filter_prints is_write pre Hpre) by (by intros []). done.
  - exfalso. apply tail_of_log in Hd; [| done..].
    apply elem_of_cons in Hd as [->|Hd]; [done |].
    apply elem_of_cons in Hd as [->|Hd]; [simpl in Hok; congruence |].
    apply elem_of_cons in Hd as [->|Hd]; [done | by apply elem_of_nil in Hd].
  - exfalso. apply tail_of_log in Hd; [| done..].
    apply elem_of_cons in Hd as [->|Hd]; [done |].
    apply elem_of_cons in Hd as [->|Hd]; [done | by apply elem_of_nil in Hd].
  - exfalso. apply tail_of_log in Hd; [| done..].
    apply elem_of_cons in Hd as [->|Hd]; [done |].
    apply elem_of_cons in Hd as [->|Hd]; [done | by apply elem_of_nil in Hd].
  - apply list_elem_of_singleton in Hd as ->. done.
Qed.

(** X12: the call returns true exactly when the post has a URI that is not in
    the set, the gate lets it through, the image is read, the parent and root
    references can be built, the dispatch succeeds and the file can be
    written. *)
Theorem reply_succeeds_iff (env : Env) (post : FeedEntry) (reply_text image_path : string)
    (st : BotState) :
  (reply_to_post list_of_set env post reply_text image_path st).1.1 = Ok true
  ↔ (∃ u reason img parent root,
        uri_of post = Some u
        ∧ should_reply_to_post list_of_set post = Ok (true, reason)
        ∧ (u ∉ replied_posts st)
        ∧ read_binary env image_path = Ok img
        ∧ thread_anchor post = Some (parent, root)
        ∧ send_image env reply_text img "A cute dog" parent root = Ok tt
        ∧ open_for_write env = Ok tt).
Proof.
  destruct (reply_to_post list_of_set env post reply_text image_path st)
    as [[r st'] log] eqn:Hrun.
  simpl. destruct (uri_of post) as [u|] eqn:Hu.
  2: { destruct (reply_to_post_no_uri list_of_set env post reply_text image_path st Hu)
         as [k Hk].
       rewrite Hk in Hrun. injection Hrun as <- <- <-.
       split; [done | by intros (?&?&?&?&?&?&_)]. }
  reply_cases list_of_set env post reply_text image_path st u Hu Hrun.
  - apply bool_decide_eq_true in Hmem.
    split; [done |]. intros (?&?&?&?&?&[= <-]&_&Hno&_). done.
  - apply bool_decide_eq_false in Hmem. split; [|done]. intros _.
    by exists u, reason, img, p, r0.
  - split; [done |]. intros (?&?&?&?&?&_&_&_&_&_&_&?). congruence.
  - split; [done |]. intros (?&?&?&?&?&_&_&_&?&?&?&_). congruence.
  - split; [done |]. intros (?&?&?&?&?&_&_&_&_&?&_). congruence.
  - split; [done |]. intros (?&?&?&?&?&_&_&_&?&_). congruence.
  - split; [done |]. intros (?&?&?&?&?&_&?&_). congruence.
Qed.

End ReplyGuards.

Section ReplySync.

Variable list_of_set : gset string → list string.
Hypothesis list_of_set_perm : ∀ s, list_of_set s ≡ₚ elements s.

(** X10: when the file can be written, a call keeps the file in step with
    the set: if loading the file gave the set the bot holds before the call,
    it does so after the call. *)
Theorem sync_is_preserved (env : Env) (post : FeedEntry) (reply_text image_path : string)
    (st st' : BotState) (r : result bool) (log : list effect) :
  open_for_write env = Ok tt →
  in_sync st →
  reply_to_post list_of_set env post reply_text image_path st = (r, st', log) →
  in_sync st'.
Proof.
  intros Hw Hsync Hrun.
  destruct (uri_of post) as [u|] eqn:Hu.
  2: { destruct (reply_to_post_no_uri list_of_set env post reply_text image_path st Hu)
         as [k Hk].
       rewrite Hk in Hrun. by injection Hrun as <- <- <-. }
  reply_cases list_of_set env post reply_text image_path st u Hu Hrun;
    try done; try congruence.
  unfold in_sync, load_replied_posts. simpl. f_equal.
  rewrite (list_of_set_perm (marked st u)). apply list_to_set_elements_L.
Qed.

End ReplySync.

(** ** Facts about the poll loop *)

Section LoopFacts.

Variable list_of_set : gset string → list string.

(** A dispatch goes to the post of the call, which was not in the set. *)
Lemma reply_to_post_sends_fresh (env : Env) (post : FeedEntry)
    (reply_text image_path : string) (st st' : BotState) (r : result bool)
    (log : list effect) (text image image_alt : string) (parent root : StrongRef) :
  reply_to_post list_of_set env post reply_text image_path st = (r, st', log) →
  SendImage text image image_alt parent root ∈ log →
  uri_of post = Some (sr_uri parent) ∧ sr_uri parent ∉ replied_posts st.
Proof.
  intros Hrun Hin.
  destruct (uri_of post) as [u|] eqn:Hu.
  2: { destruct (reply_to_post_no_uri list_of_set env post reply_text image_path st Hu)
         as [k Hk].
       rewrite Hk in Hrun. injection Hrun as <- <- <-. by apply elem_of_nil in Hin. }
  reply_cases list_of_set env post reply_text image_path st u Hu Hrun;
    try (apply list_elem_of_singleton in Hin; discriminate);
    (apply tail_of_log in Hin; [| done..]);
    (apply elem_of_cons in Hin as [?|Hin]; [done |]);
    try (apply elem_of_cons in Hin as [?|Hin]; [done | by apply elem_of_nil in Hin]);
    apply bool_decide_eq_false in Hmem;
    destruct (thread_anchor_parent _ _ _ Hanchor) as [_ [_ Hpu]];
    (apply elem_of_cons in Hin as [[= -> -> -> -> ->]|Hin];
      [ assert (u = sr_uri p) as <- by congruence; by split |]);
    repeat (apply elem_of_cons in Hin as [?|Hin]; [done |]);
    by apply elem_of_nil in Hin.
Qed.

(** What a call does to the set, by its result. *)
Lemma reply_to_post_growth (env : Env) (post : FeedEntry)
    (reply_text image_path : string) (st st' : BotState) (r : result bool)
    (log : list effect) :
  reply_to_post list_of_set env post reply_text image_path st = (r, st', log) →
  (r = Ok true →
   ∃ u, uri_of post = Some u ∧ (u ∉ replied_posts st)
        ∧ replied_posts st' = replied_posts st ∪ {[u]}
        ∧ List.length (filter (λ e, is_write e = true) log) = 1)
  ∧ (r ≠ Ok true →
     replied_posts st ⊆ replied_posts st'
     ∧ filter (λ e, is_write e = true) log = [])
  ∧ (∀ v, v ∈ replied_posts st' → v ∈ replied_posts st ∨ uri_of post = Some v).
Proof.
  intros Hrun.
  destruct (uri_of post) as [u|] eqn:Hu.
  2: { destruct (reply_to_post_no_uri list_of_set env post reply_text image_path st Hu)
         as [k Hk].
       rewrite Hk in Hrun. injection Hrun as <- <- <-.
       split; [done |]. split; [done | auto]. }
  assert (∀ v, v ∈ marked st u → v ∈ replied_posts st ∨ Some u = Some v) as Hmarked.
  { intros v Hv. unfold marked in Hv. apply elem_of_union in Hv as [Hv|Hv]; [by left |].
    apply elem_of_singleton in Hv as ->. by right. }
  reply_cases list_of_set env post reply_text image_path st u Hu Hrun; simpl.
  - split; [done |]. split; [done | auto].
  - apply bool_decide_eq_false in Hmem.
    split; [|split; [done | exact Hmarked]]. intros _. exists u.
    repeat split; [done.. |].
    rewrite filter_app, (filter_prints is_write pre Hpre) by (by intros []). done.
  - split; [done |]. split; [|exact Hmarked]. intros _.
    split; [unfold marked; apply union_subseteq_l |].
    rewrite filter_app, (filter_prints is_write pre Hpre) by (by intros []). done.
  - split; [done |]. split; [|auto]. intros _. split; [done |].
    rewrite filter_app, (filter_prints is_write pre Hpre) by (by intros []). done.
  - split; [done |]. split; [|auto]. intros _. split; [done |].
    rewrite filter_app, (filter_prints is_write pre Hpre) by (by intros []). done.
  - split; [done |]. split; [|auto]. intros _. split; [done |].
    rewrite filter_app, (filter_prints is_write pre Hpre) by (by intros []). done.
  - split; [done |]. split; [done | auto].
Qed.

Lemma fetch_latest_posts_run (c : Cycle) (st : BotState) :
  (∃ log, fetch_latest_posts (feed_request c) st = (Ok (fetched c), st, log)
          ∧ only_prints log)
  ∨ (fetched c = [] ∧ ∃ e, fetch_latest_posts (feed_request c) st = (Raise e, st, [])).
Proof.
  unfold fetch_latest_posts, fetched. bot_unfold.
  destruct (feed_request c) as [response|e]; simpl; [|right; eauto].
  case_bool_decide; simpl.
  - destruct (json_feed response) as [[feed|]|e]; simpl;
      [left; by eexists.. | right; eauto].
  - left. by eexists.
Qed.

(** One turn of the [for] loop. *)
Lemma reply_to_posts_cons (c : Cycle) (i : nat) (post : FeedEntry) (rest : list FeedEntry)
    (n : Z) (st : BotState) :
  reply_to_posts list_of_set c i (post :: rest) n st
  = match twitter_data_csv c with
    | None => (Raise FileNotFoundError, st, [])
    | Some rows =>
        match usable_content (get_random_content (at_post c i) rows) with
        | None =>
            let '(r, st2, log2) := reply_to_posts list_of_set c (S i) rest n st in
            (r, st2, BotDid (Print "Could not find random content") :: log2)
        | Some (img_path, reply_text) =>
            match reply_to_post list_of_set (at_post c i) post reply_text img_path st with
            | (Ok true, st1, log1) =>
                let '(r, st2, log2) :=
                  reply_to_posts list_of_set c (S i) rest (n + 1)%Z st1 in
                (r, st2, map BotDid log1 ++ Slept 2 :: log2)
            | (Ok false, st1, log1) =>
                let '(r, st2, log2) := reply_to_posts list_of_set c (S i) rest n st1 in
                (r, st2, map BotDid log1 ++ log2)
            | (Raise e, st1, log1) => (Raise e, st1, map BotDid log1)
            end
        end
    end.
Proof.
  cbn [reply_to_posts].
  unfold mbind, mret, Loop_bind, Loop_ret, run_bot, sleep, lift, print, emit, open_dataset.
  destruct (twitter_data_csv c) as [rows|]; [|done]. simpl.
  destruct (usable_content (get_random_content (at_post c i) rows)) as [[img_path reply_text]|].
  - destruct (reply_to_post list_of_set (at_post c i) post reply_text img_path st)
      as [[[[]|e] st1] log1]; simpl.
    + destruct (reply_to_posts list_of_set c (S i) rest (n + 1)%Z st1) as [[r st2] log2].
      by rewrite <- app_assoc.
    + destruct (reply_to_posts list_of_set c (S i) rest n st1) as [[r st2] log2].
      by rewrite ?app_nil_r.
    + by rewrite ?app_nil_r.
  - simpl. by destruct (reply_to_posts list_of_set c (S i) rest n st) as [[r st2] log2].
Qed.

Lemma dispatched_to_app (l1 l2 : list loop_event) :
  dispatched_to (l1 ++ l2) = dispatched_to l1 ++ dispatched_to l2.
Proof. apply omap_app. Qed.

Lemma dispatched_to_bot (log : list effect) (u : string) :
  u ∈ dispatched_to (map BotDid log) ↔
  ∃ text image image_alt parent root,
    SendImage text image image_alt parent root ∈ log ∧ sr_uri parent = u.
Proof.
  unfold dispatched_to. rewrite list_elem_of_omap. split.
  - intros [ev [Hev Hsome]]. apply list_elem_of_fmap in Hev as [e [-> He]].
    destruct e; try discriminate. injection Hsome as <-. eauto 10.
  - intros (text & image & image_alt & parent & root & Hin & <-).
    exists (BotDid (SendImage text image image_alt parent root)). split; [|done].
    apply list_elem_of_fmap. eauto.
Qed.

End LoopFacts.

Section LoopTheorems.

Variable list_of_set : gset string → list string.

Lemma count_app {A} (P : A → bool) (l1 l2 : list A) :
  List.length (filter (λ x, P x = true) (l1 ++ l2))
  = List.length (filter (λ x, P x = true) l1) + List.length (filter (λ x, P x = true) l2).
Proof. by rewrite filter_app, length_app. Qed.

Lemma count_bot (P : loop_event → bool) (Q : effect → bool) (log : list effect) :
  (∀ e, P (BotDid e) = Q e) →
  List.length (filter (λ ev, P ev = true) (map BotDid log))
  = List.length (filter (λ e, Q e = true) log).
Proof.
  intros HPQ. induction log as [|e log IH]; [done |].
  cbn [map]. rewrite !filter_cons, HPQ.
  destruct (decide (Q e = true)); simpl; by rewrite IH.
Qed.

Lemma count_none {A} (P : A → bool) (l : list A) :
  (∀ x, P x = false) → List.length (filter (λ x, P x = true) l) = 0.
Proof.
  intros HP. induction l as [|x l IH]; [done |]. rewrite filter_cons, HP.
  by case_decide.
Qed.

(** The [for] loop: the set, the dispatches and the count, by induction on
    the posts. *)
Lemma reply_to_posts_inv (c : Cycle) (posts : list FeedEntry) :
  ∀ (i : nat) (n : Z) (st st' : BotState) (r : result Z) (log : list loop_event),
    reply_to_posts list_of_set c i posts n st = (r, st', log) →
    replied_posts st ⊆ replied_posts st'
    ∧ (∀ v, v ∈ replied_posts st' →
            v ∈ replied_posts st ∨ ∃ post, post ∈ posts ∧ uri_of post = Some v)
    ∧ (∀ u, u ∈ dispatched_to log →
            (u ∉ replied_posts st) ∧ ∃ post, post ∈ posts ∧ uri_of post = Some u)
    ∧ List.length (filter (λ ev, is_pause ev = true) log)
      = List.length (filter (λ ev, is_saved ev = true) log)
    ∧ (size (replied_posts st) + List.length (filter (λ ev, is_saved ev = true) log)
       ≤ size (replied_posts st'))%nat
    ∧ (∀ n', r = Ok n' →
             n' = (n + Z.of_nat (List.length (filter (λ ev, is_pause ev = true) log)))%Z).
Proof.
  induction posts as [|post rest IH]; intros i n st st' r log Hrun.
  - injection Hrun as <- <- <-. simpl.
    split; [done |]. split; [auto |].
    split; [intros u Hu; by apply elem_of_nil in Hu |].
    split; [done |]. split; [lia |]. intros n' [= <-]. lia.
  - rewrite reply_to_posts_cons in Hrun.
    destruct (twitter_data_csv c) as [rows|].
    2: { injection Hrun as <- <- <-. simpl.
         split; [done |]. split; [auto |].
         split; [intros u Hu; by apply elem_of_nil in Hu |].
         split; [done |]. split; [lia | done]. }
    destruct (usable_content (get_random_content (at_post c i) rows))
      as [[img_path reply_text]|].
    + destruct (reply_to_post list_of_set (at_post c i) post reply_text img_path st)
        as [[r1 st1] log1] eqn:Hcall.
      destruct (reply_to_post_growth list_of_set _ _ _ _ _ _ _ _ Hcall)
        as [Htrue [Hfalse Horigin]].
      assert (∀ u, u ∈ dispatched_to (map BotDid log1) →
                   (u ∉ replied_posts st) ∧ ∃ p, p ∈ post :: rest ∧ uri_of p = Some u)
        as Hsent.
      { intros u Hu. apply dispatched_to_bot in Hu
          as (text & image & image_alt & parent & root & Hin & <-).
        destruct (reply_to_post_sends_fresh list_of_set _ _ _ _ _ _ _ _ _ _ _ _ _
                    Hcall Hin) as [Hpu Hfresh].
        split; [done |]. exists post. split; [apply list_elem_of_here | done]. }
      assert (List.length (filter (λ ev, is_pause ev = true) (map BotDid log1)) = 0)
        as Hnopause.
      { rewrite (count_bot is_pause (λ _, false)) by done. by apply count_none. }
      pose proof (count_bot is_saved is_write log1
                    (λ e, match e with WriteReplied _ => eq_refl | _ => eq_refl end))
        as Hsaved.
      destruct r1 as [[]|e].
      * destruct (reply_to_posts list_of_set c (S i) rest (n + 1)%Z st1)
          as [[r2 st2] log2] eqn:Hrest.
        injection Hrun as <- <- <-.
        destruct (IH _ _ _ _ _ _ Hrest) as (Hsub & Hfrom & Hdisp & Hcount & Hsize & Hn).
        destruct (Htrue eq_refl) as (u & Hu & Hfresh & Hset & Hone).
        assert (replied_posts st ⊆ replied_posts st1) as Hsub1.
        { rewrite Hset. apply union_subseteq_l. }
        split; [by etrans |]. split; [|split; [|split; [|split]]].
        -- intros v Hv. destruct (Hfrom v Hv) as [Hv1|[p [Hp Hpv]]].
           ++ destruct (Horigin v Hv1) as [?|?]; [by left |].
              right. exists post. split; [apply list_elem_of_here | done].
           ++ right. exists p. split; [by apply list_elem_of_further | done].
        -- intros v Hv. rewrite dispatched_to_app in Hv.
           apply elem_of_app in Hv as [Hv|Hv]; [by apply Hsent |].
           change (Slept 2 :: log2) with ([Slept 2] ++ log2) in Hv.
           rewrite dispatched_to_app in Hv. apply elem_of_app in Hv as [Hv|Hv].
           { by apply elem_of_nil in Hv. }
           destruct (Hdisp v Hv) as [Hfresh1 [p [Hp Hpv]]]. split.
           ++ intros Hin. apply Hfresh1. by apply Hsub1.
           ++ exists p. split; [by apply list_elem_of_further | done].
        -- change (Slept 2 :: log2) with ([Slept 2] ++ log2).
           rewrite !count_app, Hnopause, Hsaved, Hone, Hcount. simpl. lia.
        -- change (Slept 2 :: log2) with ([Slept 2] ++ log2).
           rewrite !count_app, Hsaved, Hone. simpl.
           assert (size (replied_posts st1) = S (size (replied_posts st))) as Hgrow.
           { rewrite Hset, size_union, size_singleton by set_solver. lia. }
           lia.
        -- intros n' ->. rewrite (Hn n' eq_refl).
           change (Slept 2 :: log2) with ([Slept 2] ++ log2).
           rewrite !count_app, Hnopause. simpl. lia.
      * destruct (reply_to_posts list_of_set c (S i) rest n st1)
          as [[r2 st2] log2] eqn:Hrest.
        injection Hrun as <- <- <-.
        destruct (IH _ _ _ _ _ _ Hrest) as (Hsub & Hfrom & Hdisp & Hcount & Hsize & Hn).
        destruct (Hfalse ltac:(done)) as [Hsub1 Hnowrite].
        split; [by etrans |]. split; [|split; [|split; [|split]]].
        -- intros v Hv. destruct (Hfrom v Hv) as [Hv1|[p [Hp Hpv]]].
           ++ destruct (Horigin v Hv1) as [?|?]; [by left |].
              right. exists post. split; [apply list_elem_of_here | done].
           ++ right. exists p. split; [by apply list_elem_of_further | done].
        -- intros v Hv. rewrite dispatched_to_app in Hv.
           apply elem_of_app in Hv as [Hv|Hv]; [by apply Hsent |].
           destruct (Hdisp v Hv) as [Hfresh1 [p [Hp Hpv]]]. split.
           ++ intros Hin. apply Hfresh1. by apply Hsub1.
           ++ exists p. split; [by apply list_elem_of_further | done].
        -- rewrite !count_app, Hnopause, Hsaved, Hnowrite, Hcount. done.
        -- rewrite !count_app, Hsaved, Hnowrite. simpl.
           pose proof (subseteq_size _ _ Hsub1). lia.
        -- intros n' ->. rewrite (Hn n' eq_refl), !count_app, Hnopause. done.
      * injection Hrun as <- <- <-.
        destruct (Hfalse ltac:(done)) as [Hsub1 Hnowrite].
        split; [done |]. split; [|split; [|split; [|split]]].
        -- intros v Hv. destruct (Horigin v Hv) as [?|?]; [by left |].
           right. exists post. split; [apply list_elem_of_here | done].
        -- done.
        -- by rewrite Hnopause, Hsaved, Hnowrite.
        -- rewrite Hsaved, Hnowrite. simpl. pose proof (subseteq_size _ _ Hsub1). lia.
        -- done.
    + destruct (reply_to_posts list_of_set c (S i) rest n st) as [[r2 st2] log2] eqn:Hrest.
      injection Hrun as <- <- <-.
      destruct (IH _ _ _ _ _ _ Hrest) as (Hsub & Hfrom & Hdisp & Hcount & Hsize & Hn).
      split; [done |]. split; [|split; [|split; [|split]]].
      * intros v Hv. destruct (Hfrom v Hv) as [?|[p [Hp Hpv]]]; [by left |].
        right. exists p. split; [by apply list_elem_of_further | done].
      * intros v Hv.
        change (BotDid (Print "Could not find random content") :: log2)
          with ([BotDid (Print "Could not find random content")] ++ log2) in Hv.
        rewrite dispatched_to_app in Hv. apply elem_of_app in Hv as [Hv|Hv].
        { by apply elem_of_nil in Hv. }
        destruct (Hdisp v Hv) as [Hfresh1 [p [Hp Hpv]]]. split; [done |].
        exists p. split; [by apply list_elem_of_further | done].
      * by rewrite !filter_cons.
      * by rewrite filter_cons.
      * intros n' ->. rewrite (Hn n' eq_refl). by rewrite filter_cons.
Qed.

End LoopTheorems.

Section CycleTheorems.

Variable list_of_set : gset string → list string.

(** One iteration: what precedes the [for] loop, the loop, what follows. *)
Lemma run_cycle_shape (c : Cycle) (interval : Z) (st : BotState) :
  ∃ r st1 log1 head tail,
    reply_to_posts list_of_set c 0 (fetched c) 0%Z st = (r, st1, log1)
    ∧ run_cycle list_of_set c interval st = (Ok tt, st1, head ++ log1 ++ tail)
    ∧ (∃ lines, only_prints lines ∧ head = map BotDid lines)
    ∧ ((∃ n, r = Ok n ∧ tail = [BotDid (Print (summary_line n)); Slept interval])
       ∨ (∃ e, tail = error_tail e ∧ (r = Raise e ∨ fetched c = []))).
Proof.
  unfold run_cycle, loop_try, cycle_body.
  unfold mbind, mret, Loop_bind, Loop_ret, run_bot, sleep, print, emit.
  destruct (fetch_latest_posts_run c st) as [[log0 [Hfetch Hlog0]]|[Hnone [e Hfetch]]];
    rewrite Hfetch.
  - destruct (reply_to_posts list_of_set c 0 (fetched c) 0%Z st) as [[[n|e] st1] log1] eqn:Hfor.
    + exists (Ok n), st1, log1, (map BotDid log0),
        [BotDid (Print (summary_line n)); Slept interval].
      split; [done |]. split; [reflexivity |].
      split; [by exists log0 |]. left. by exists n.
    + exists (Raise e), st1, log1, (map BotDid log0), (error_tail e).
      split; [done |]. split; [by rewrite <- app_assoc |].
      split; [by exists log0 |]. right. exists e. split; [done | by left].
  - rewrite Hnone. exists (Ok 0%Z), st, [], [], (error_tail e).
    split; [done |]. split; [done |]. split; [by exists [] |].
    right. exists e. split; [done | by right].
Qed.

Lemma dispatched_to_prints (lines : list effect) :
  only_prints lines → dispatched_to (map BotDid lines) = [].
Proof.
  induction lines as [|e lines IH]; [done |].
  intros Hall. apply only_prints_app with (l1 := [e]) in Hall as [He Hall].
  destruct e; try done. simpl. by apply IH.
Qed.

Lemma dispatched_to_cycle (lines : list effect) (log1 tail : list loop_event) :
  only_prints lines → dispatched_to tail = [] →
  dispatched_to (map BotDid lines ++ log1 ++ tail) = dispatched_to log1.
Proof.
  intros Hlines Htail.
  by rewrite !dispatched_to_app, (dispatched_to_prints lines Hlines), Htail, app_nil_r.
Qed.

(** One iteration: it returns, the set grows by URIs of fetched posts, the
    dispatches go to fetched posts that were not in the set, and the log ends
    with the sleep. *)
Lemma run_cycle_inv (c : Cycle) (interval : Z) (st st' : BotState) (r : result unit)
    (log : list loop_event) :
  run_cycle list_of_set c interval st = (r, st', log) →
  r = Ok tt
  ∧ replied_posts st ⊆ replied_posts st'
  ∧ (∀ v, v ∈ replied_posts st' →
          v ∈ replied_posts st ∨ ∃ post, post ∈ fetched c ∧ uri_of post = Some v)
  ∧ (∀ u, u ∈ dispatched_to log →
          (u ∉ replied_posts st) ∧ ∃ post, post ∈ fetched c ∧ uri_of post = Some u)
  ∧ ∃ body rest, log = body ++ [Slept rest] ∧ (rest = interval ∨ rest = 30%Z).
Proof.
  intros Hrun.
  destruct (run_cycle_shape c interval st)
    as (r1 & st1 & log1 & head & tail & Hfor & Hcycle & [lines [Hlines ->]] & Htail).
  rewrite Hrun in Hcycle. injection Hcycle as -> -> ->.
  destruct (reply_to_posts_inv list_of_set c _ _ _ _ _ _ _ Hfor)
    as (Hsub & Hfrom & Hdisp & _).
  assert (dispatched_to tail = []) as Hquiet.
  { destruct Htail as [[n [_ ->]]|[e [-> _]]]; done. }
  split; [done |]. split; [done |]. split; [done |]. split.
  - intros u Hu. rewrite dispatched_to_cycle in Hu by done. by apply Hdisp.
  - destruct Htail as [[n [_ ->]]|[e [-> _]]].
    + exists (map BotDid lines ++ log1 ++ [BotDid (Print (summary_line n))]), interval.
      split; [by rewrite <- !app_assoc | by left].
    + exists (map BotDid lines ++ log1
              ++ [BotDid (Print ("Error in main loop: " +:+ exn_str e));
                  BotDid (Print "Waiting 30 seconds before retrying...")]), 30%Z.
      split; [by rewrite <- !app_assoc | by right].
Qed.

Lemma run_from_S (cycles : nat → Cycle) (interval : Z) (k n : nat) (st : BotState) :
  run_from list_of_set cycles interval k (S n) st
  = let '(_, st1, log1) := run_cycle list_of_set (cycles k) interval st in
    let '(r, st2, log2) := run_from list_of_set cycles interval (S k) n st1 in
    (r, st2, log1 ++ log2).
Proof.
  cbn [run_from]. unfold mbind, Loop_bind.
  destruct (run_cycle list_of_set (cycles k) interval st) as [[r1 st1] log1] eqn:Hc.
  by destruct (run_cycle_inv _ _ _ _ _ _ Hc) as [-> _].
Qed.

End CycleTheorems.

Section RunTheorems.

Variable list_of_set : gset string → list string.

Lemma run_from_inv (cycles : nat → Cycle) (interval : Z) (n : nat) :
  ∀ (k : nat) (st st' : BotState) (r : result unit) (log : list loop_event),
    run_from list_of_set cycles interval k n st = (r, st', log) →
    r = Ok tt
    ∧ replied_posts st ⊆ replied_posts st'
    ∧ (∀ v, v ∈ replied_posts st' →
            v ∈ replied_posts st
            ∨ ∃ j post, (k ≤ j < k + n)%nat ∧ post ∈ fetched (cycles j)
                        ∧ uri_of post = Some v)
    ∧ (∀ u, u ∈ dispatched_to log →
            (u ∉ replied_posts st)
            ∧ ∃ j post, (k ≤ j < k + n)%nat ∧ post ∈ fetched (cycles j)
                        ∧ uri_of post = Some u)
    ∧ ∃ logs, log = concat logs ∧ List.length logs = n
              ∧ Forall (λ l, ∃ body rest, l = body ++ [Slept rest]
                                          ∧ (rest = interval ∨ rest = 30%Z)) logs.
Proof.
  induction n as [|n IH]; intros k st st' r log Hrun.
  - injection Hrun as <- <- <-.
    split; [done |]. split; [done |]. split; [auto |]. split.
    + intros u Hu. by apply elem_of_nil in Hu.
    + exists []. by repeat split.
  - rewrite run_from_S in Hrun.
    destruct (run_cycle list_of_set (cycles k) interval st) as [[r1 st1] log1] eqn:Hc.
    destruct (run_from list_of_set cycles interval (S k) n st1) as [[r2 st2] log2] eqn:Hr.
    injection Hrun as <- <- <-.
    destruct (run_cycle_inv _ _ _ _ _ _ _ Hc) as (_ & Hsub1 & Hfrom1 & Hdisp1 & Hend1).
    destruct (IH _ _ _ _ _ Hr) as (-> & Hsub2 & Hfrom2 & Hdisp2 & logs & -> & Hlen & Hends).
    split; [done |]. split; [by etrans |]. split; [|split].
    + intros v Hv. destruct (Hfrom2 v Hv) as [Hv1|(j & post & Hj & Hpost & Huri)].
      * destruct (Hfrom1 v Hv1) as [?|(post & Hpost & Huri)]; [by left |].
        right. exists k, post. split; [lia | done].
      * right. exists j, post. split; [lia | done].
    + intros u Hu. rewrite dispatched_to_app in Hu. apply elem_of_app in Hu as [Hu|Hu].
      * destruct (Hdisp1 u Hu) as [Hfresh (post & Hpost & Huri)].
        split; [done |]. exists k, post. split; [lia | done].
      * destruct (Hdisp2 u Hu) as [Hfresh (j & post & Hj & Hpost & Huri)]. split.
        -- intros Hin. apply Hfresh. by apply Hsub1.
        -- exists j, post. split; [lia | done].
    + exists (log1 :: logs). split; [done |]. split; [simpl; by rewrite Hlen |].
      by constructor.
Qed.

(** X13: the poll loop never raises and never ends an iteration without a
    sleep: its first [n] iterations return, and the log of each one ends with
    a sleep of the poll interval or of 30 seconds. *)
Theorem poll_loop_never_raises (cycles : nat → Cycle) (interval : Z) (n : nat)
    (st : BotState) :
  ∃ st' logs,
    run list_of_set cycles interval n st = (Ok tt, st', concat logs)
    ∧ List.length logs = n
    ∧ Forall (λ l, ∃ body rest, l = body ++ [Slept rest]
                                ∧ (rest = interval ∨ rest = 30%Z)) logs.
Proof.
  unfold run.
  destruct (run_from list_of_set cycles interval 0 n st) as [[r st'] log] eqn:Hrun.
  destruct (run_from_inv _ _ _ _ _ _ _ _ Hrun) as (-> & _ & _ & _ & logs & -> & Hlen & Hends).
  by exists st', logs.
Qed.

(** X14: over any number of iterations the set of replied posts only grows,
    and only by URIs of posts of the fetched feeds; every reply dispatched
    goes to a post of a fetched feed whose URI was not in the set when the
    loop started. *)
Theorem poll_loop_replies_to_new_posts (cycles : nat → Cycle) (interval : Z) (n : nat)
    (st st' : BotState) (r : result unit) (log : list loop_event) :
  run list_of_set cycles interval n st = (r, st', log) →
  replied_posts st ⊆ replied_posts st'
  ∧ (∀ v, v ∈ replied_posts st' →
          v ∈ replied_posts st
          ∨ ∃ j post, (j < n)%nat ∧ post ∈ fetched (cycles j) ∧ uri_of post = Some v)
  ∧ (∀ u, u ∈ dispatched_to log →
          (u ∉ replied_posts st)
          ∧ ∃ j post, (j < n)%nat ∧ post ∈ fetched (cycles j) ∧ uri_of post = Some u).
Proof.
  intros Hrun.
  destruct (run_from_inv _ _ _ _ _ _ _ _ Hrun) as (_ & Hsub & Hfrom & Hdisp & _).
  split; [done |]. split.
  - intros v Hv. destruct (Hfrom v Hv) as [?|(j & post & Hj & Hpost)]; [by left |].
    right. exists j, post. split; [lia | done].
  - intros u Hu. destruct (Hdisp u Hu) as [Hfresh (j & post & Hj & Hpost)].
    split; [done |]. exists j, post. split; [lia | done].
Qed.

End RunTheorems.

Section OnceTheorems.

Variable list_of_set : gset string → list string.

Lemma once_compose (s1 s2 : gset string) (l1 l2 : list string) :
  NoDup l1 → (∀ u, u ∈ l1 → u ∈ s1) →
  NoDup l2 → (∀ u, u ∈ l2 → (u ∉ s1) ∧ u ∈ s2) →
  s1 ⊆ s2 →
  NoDup (l1 ++ l2) ∧ ∀ u, u ∈ l1 ++ l2 → u ∈ s2.
Proof.
  intros Hnd1 Hin1 Hnd2 Hin2 Hsub. split.
  - apply NoDup_app. split; [done |]. split; [|done].
    intros u Hu1 Hu2. destruct (Hin2 u Hu2) as [Hfresh _]. by apply Hfresh, Hin1.
  - intros u Hu. apply elem_of_app in Hu as [Hu|Hu].
    + by apply Hsub, Hin1.
    + by apply Hin2.
Qed.

(** A call dispatches at most once; when the client accepts the dispatch, the
    URI is in the set the call leaves. *)
Lemma reply_to_post_dispatched (env : Env) (post : FeedEntry)
    (reply_text image_path : string) (st st' : BotState) (r : result bool)
    (log : list effect) :
  (∀ text img alt p r0, send_image env text img alt p r0 = Ok tt) →
  reply_to_post list_of_set env post reply_text image_path st = (r, st', log) →
  NoDup (dispatched_to (map BotDid log))
  ∧ ∀ u, u ∈ dispatched_to (map BotDid log) → u ∈ replied_posts st'.
Proof.
  intros Hsends Hrun.
  destruct (uri_of post) as [u|] eqn:Hu.
  2: { destruct (reply_to_post_no_uri list_of_set env post reply_text image_path st Hu)
         as [k Hk].
       rewrite Hk in Hrun. injection Hrun as <- <- <-.
       split; [constructor | intros v Hv; by apply elem_of_nil in Hv]. }
  reply_cases list_of_set env post reply_text image_path st u Hu Hrun;
    try (rewrite Hsends in Hsend; discriminate);
    try (split; [constructor | intros v Hv; by apply elem_of_nil in Hv]);
    rewrite map_app, dispatched_to_app, (dispatched_to_prints pre Hpre);
    try (split; [constructor | intros v Hv; by apply elem_of_nil in Hv]);
    destruct (thread_anchor_parent _ _ _ Hanchor) as [_ [_ Hpu]];
    assert (sr_uri p = u) as Hp by congruence;
    simpl; rewrite Hp;
    (split; [apply NoDup_singleton |]);
    intros v Hv; apply list_elem_of_singleton in Hv as ->;
    unfold marked; apply elem_of_union_r; by apply elem_of_singleton.
Qed.

(** The [for] loop, when the client accepts every dispatch. *)
Lemma reply_to_posts_once (c : Cycle) (posts : list FeedEntry) :
  (∀ i text img alt p r0, send_image (at_post c i) text img alt p r0 = Ok tt) →
  ∀ (i : nat) (n : Z) (st st' : BotState) (r : result Z) (log : list loop_event),
    reply_to_posts list_of_set c i posts n st = (r, st', log) →
    NoDup (dispatched_to log) ∧ ∀ u, u ∈ dispatched_to log → u ∈ replied_posts st'.
Proof.
  intros Hsends.
  induction posts as [|post rest IH]; intros i n st st' r log Hrun.
  - injection Hrun as <- <- <-.
    split; [constructor | intros v Hv; by apply elem_of_nil in Hv].
  - rewrite reply_to_posts_cons in Hrun.
    destruct (twitter_data_csv c) as [rows|].
    2: { injection Hrun as <- <- <-.
         split; [constructor | intros v Hv; by apply elem_of_nil in Hv]. }
    destruct (usable_content (get_random_content (at_post c i) rows))
      as [[img_path reply_text]|].
    + destruct (reply_to_post list_of_set (at_post c i) post reply_text img_path st)
        as [[r1 st1] log1] eqn:Hcall.
      destruct (reply_to_post_dispatched _ _ _ _ _ _ _ _ (Hsends i) Hcall) as [Hnd1 Hin1].
      destruct r1 as [[]|e].
      * destruct (reply_to_posts list_of_set c (S i) rest (n + 1)%Z st1)
          as [[r2 st2] log2] eqn:Hrest.
        injection Hrun as <- <- <-.
        destruct (IH _ _ _ _ _ _ Hrest) as [Hnd2 Hin2].
        destruct (reply_to_posts_inv list_of_set c _ _ _ _ _ _ _ Hrest)
          as (Hsub & _ & Hdisp & _).
        change (Slept 2 :: log2) with ([Slept 2] ++ log2).
        rewrite !dispatched_to_app. change (dispatched_to [Slept 2]) with (@nil string).
        apply (once_compose (replied_posts st1)); try done.
        intros u Hu. split; [by apply Hdisp | by apply Hin2].
      * destruct (reply_to_posts list_of_set c (S i) rest n st1)
          as [[r2 st2] log2] eqn:Hrest.
        injection Hrun as <- <- <-.
        destruct (IH _ _ _ _ _ _ Hrest) as [Hnd2 Hin2].
        destruct (reply_to_posts_inv list_of_set c _ _ _ _ _ _ _ Hrest)
          as (Hsub & _ & Hdisp & _).
        rewrite !dispatched_to_app.
        apply (once_compose (replied_posts st1)); try done.
        intros u Hu. split; [by apply Hdisp | by apply Hin2].
      * by injection Hrun as <- <- <-.
    + destruct (reply_to_posts list_of_set c (S i) rest n st) as [[r2 st2] log2] eqn:Hrest.
      injection Hrun as <- <- <-. by apply (IH _ _ _ _ _ _ Hrest).
Qed.

Lemma run_from_once (cycles : nat → Cycle) (interval : Z) (n : nat) :
  (∀ j i text img alt p r0, send_image (at_post (cycles j) i) text img alt p r0 = Ok tt) →
  ∀ (k : nat) (st st' : BotState) (r : result unit) (log : list loop_event),
    run_from list_of_set cycles interval k n st = (r, st', log) →
    NoDup (dispatched_to log) ∧ ∀ u, u ∈ dispatched_to log → u ∈ replied_posts st'.
Proof.
  intros Hsends.
  induction n as [|n IH]; intros k st st' r log Hrun.
  - injection Hrun as <- <- <-.
    split; [constructor | intros v Hv; by apply elem_of_nil in Hv].
  - rewrite run_from_S in Hrun.
    destruct (run_cycle list_of_set (cycles k) interval st) as [[r1 st1] log1] eqn:Hc.
    destruct (run_from list_of_set cycles interval (S k) n st1) as [[r2 st2] log2] eqn:Hr.
    injection Hrun as <- <- <-.
    destruct (IH _ _ _ _ _ Hr) as [Hnd2 Hin2].
    destruct (run_from_inv _ _ _ _ _ _ _ _ _ Hr) as (_ & Hsub & _ & Hdisp & _).
    destruct (run_cycle_shape list_of_set (cycles k) interval st)
      as (r0 & st0 & log0 & head & tail & Hfor & Hcycle & [lines [Hlines ->]] & Htail).
    rewrite Hc in Hcycle. injection Hcycle as -> -> ->.
    destruct (reply_to_posts_once _ _ (Hsends k) _ _ _ _ _ _ Hfor) as [Hnd1 Hin1].
    assert (dispatched_to tail = []) as Hquiet.
    { destruct Htail as [[m [_ ->]]|[e [-> _]]]; done. }
    rewrite dispatched_to_app, dispatched_to_cycle by done.
    apply (once_compose (replied_posts st0)); try done.
    intros u Hu. split; [by apply Hdisp | by apply Hin2].
Qed.

(** X15: as long as the client accepts every dispatch, the poll loop never
    replies twice to the same post, however often the feeds repeat it and
    whether or not the replied-posts file can be written; every post replied
    to is in the set the loop holds. *)
Theorem poll_loop_replies_once (cycles : nat → Cycle) (interval : Z) (n : nat)
    (st st' : BotState) (r : result unit) (log : list loop_event) :
  (∀ j i text img alt p r0, send_image (at_post (cycles j) i) text img alt p r0 = Ok tt) →
  run list_of_set cycles interval n st = (r, st', log) →
  NoDup (dispatched_to log) ∧ ∀ u, u ∈ dispatched_to log → u ∈ replied_posts st'.
Proof. intros Hsends Hrun. exact (run_from_once _ _ _ Hsends _ _ _ _ _ Hrun). Qed.

End OnceTheorems.

Section CycleEdges.

Variable list_of_set : gset string → list string.

Lemma count_prints (P : loop_event → bool) (lines : list effect) :
  only_prints lines → (∀ line, P (BotDid (Print line)) = false) →
  List.length (filter (λ ev, P ev = true) (map BotDid lines)) = 0.
Proof.
  intros Hlines HP. induction lines as [|e lines IH]; [done |].
  apply only_prints_app with (l1 := [e]) in Hlines as [He Hlines].
  destruct e; try done. cbn [map]. rewrite filter_cons, HP.
  case_decide; [done | by apply IH].
Qed.

(** X16: an iteration ends in one of two ways.  Either with the summary line
    and the sleep of the poll interval: then the count the summary reports is
    the number of times the replied-posts file was written in the iteration,
    which is also the number of two-second pauses, and the set grew by at
    least that many URIs.  Or with the two error lines and the sleep of 30
    seconds. *)
Theorem summary_counts_saved_replies (c : Cycle) (interval : Z) (st st' : BotState)
    (r : result unit) (log : list loop_event) :
  run_cycle list_of_set c interval st = (r, st', log) →
  (∃ body n,
      log = body ++ [BotDid (Print (summary_line n)); Slept interval]
      ∧ n = Z.of_nat (List.length (filter (λ ev, is_saved ev = true) body))
      ∧ List.length (filter (λ ev, is_pause ev = true) body)
        = List.length (filter (λ ev, is_saved ev = true) body)
      ∧ (size (replied_posts st)
         + List.length (filter (λ ev, is_saved ev = true) body)
         ≤ size (replied_posts st'))%nat)
  ∨ (∃ body e, log = body ++ error_tail e).
Proof.
  intros Hrun.
  destruct (run_cycle_shape list_of_set c interval st)
    as (r1 & st1 & log1 & head & tail & Hfor & Hcycle & [lines [Hlines ->]] & Htail).
  rewrite Hrun in Hcycle. injection Hcycle as -> -> ->.
  destruct (reply_to_posts_inv list_of_set c _ _ _ _ _ _ _ Hfor)
    as (_ & _ & _ & Hcount & Hsize & Hn).
  destruct Htail as [[n [-> ->]]|[e [-> _]]].
  - left. exists (map BotDid lines ++ log1), n.
    split; [by rewrite <- app_assoc |].
    rewrite !count_app, !(count_prints _ lines Hlines) by done. simpl.
    split; [rewrite (Hn n eq_refl), Hcount; lia |]. split; [done | lia].
  - right. exists (map BotDid lines ++ log1), e. by rewrite <- app_assoc.
Qed.

(** A call on a post with a URI returns. *)
Lemma reply_to_post_returns (env : Env) (post : FeedEntry) (reply_text image_path : string)
    (st st' : BotState) (r : result bool) (log : list effect) :
  is_Some (uri_of post) →
  reply_to_post list_of_set env post reply_text image_path st = (r, st', log) →
  ∃ b, r = Ok b.
Proof.
  intros [u Hu] Hrun.
  reply_cases list_of_set env post reply_text image_path st u Hu Hrun; eauto.
Qed.

(** The [for] loop stops at the first post without a URI for which content
    is drawn: up to there it runs as on the posts before it. *)
Lemma reply_to_posts_abort (c : Cycle) (rows : list Row) (post : FeedEntry)
    (rest pre : list FeedEntry) :
  twitter_data_csv c = Some rows →
  uri_of post = None →
  Forall (λ p, is_Some (uri_of p)) pre →
  ∀ (i : nat) (n : Z) (st : BotState),
    is_Some (usable_content (get_random_content (at_post c (i + List.length pre)) rows)) →
    ∃ n' st' log key,
      reply_to_posts list_of_set c i pre n st = (Ok n', st', log)
      ∧ reply_to_posts list_of_set c i (pre ++ post :: rest) n st
        = (Raise (KeyError key), st', log).
Proof.
  intros Hcsv Hu Hpre. induction Hpre as [|p pre Hp Hpre IH]; intros i n st Hcontent.
  - simpl in Hcontent. rewrite Nat.add_0_r in Hcontent.
    destruct Hcontent as [[img_path reply_text] Hcontent].
    destruct (reply_to_post_no_uri list_of_set (at_post c i) post reply_text img_path st Hu)
      as [key Hkey].
    exists n, st, [], key. split; [done |].
    cbn [app]. by rewrite reply_to_posts_cons, Hcsv, Hcontent, Hkey.
  - cbn [List.length] in Hcontent.
    replace (i + S (List.length pre)) with (S i + List.length pre) in Hcontent by lia.
    cbn [app]. rewrite !reply_to_posts_cons, Hcsv.
    destruct (usable_content (get_random_content (at_post c i) rows))
      as [[img_path reply_text]|].
    + destruct (reply_to_post list_of_set (at_post c i) p reply_text img_path st)
        as [[r1 st1] log1] eqn:Hcall.
      destruct (reply_to_post_returns _ _ _ _ _ _ _ _ Hp Hcall) as [[] ->].
      * destruct (IH (S i) (n + 1)%Z st1 Hcontent) as (n' & st' & log & key & -> & ->).
        by exists n', st', (map BotDid log1 ++ Slept 2 :: log), key.
      * destruct (IH (S i) n st1 Hcontent) as (n' & st' & log & key & -> & ->).
        by exists n', st', (map BotDid log1 ++ log), key.
    + destruct (IH (S i) n st Hcontent) as (n' & st' & log & key & -> & ->).
      by exists n', st', (BotDid (Print "Could not find random content") :: log), key.
Qed.

(** X17: a post without a URI, once content is drawn for it, ends the
    iteration: the posts before it are handled as if the feed stopped there,
    the posts after it are not looked at, and the iteration ends with the
    error lines for the [KeyError] and the sleep of 30 seconds. *)
Theorem post_without_uri_ends_iteration (c : Cycle) (interval : Z) (st : BotState)
    (rows : list Row) (pre rest : list FeedEntry) (post : FeedEntry) :
  fetched c = pre ++ post :: rest →
  twitter_data_csv c = Some rows →
  Forall (λ p, is_Some (uri_of p)) pre →
  uri_of post = None →
  is_Some (usable_content (get_random_content (at_post c (List.length pre)) rows)) →
  ∃ n st' log key lines,
    reply_to_posts list_of_set c 0 pre 0%Z st = (Ok n, st', log)
    ∧ only_prints lines
    ∧ run_cycle list_of_set c interval st
      = (Ok tt, st', map BotDid lines ++ log ++ error_tail (KeyError key)).
Proof.
  intros Hfeed Hcsv Hpre Hu Hcontent.
  destruct (reply_to_posts_abort c rows post rest pre Hcsv Hu Hpre 0 0%Z st Hcontent)
    as (n & st' & log & key & Hfor & Habort).
  destruct (run_cycle_shape list_of_set c interval st)
    as (r1 & st1 & log1 & head & tail & Hfor1 & Hcycle & [lines [Hlines ->]] & Htail).
  rewrite Hfeed, Habort in Hfor1. injection Hfor1 as <- <- <-.
  exists n, st', log, key, lines. split; [done |]. split; [done |].
  destruct Htail as [[m [[=] _]]|[e [-> [[= <-]|Hnil]]]]; [done |].
  rewrite Hfeed in Hnil. by destruct pre.
Qed.

(** X18: when the dataset file is missing and the feed has a post, the
    iteration changes nothing: it reads no image, dispatches nothing, writes
    nothing, and ends with the sleep of 30 seconds. *)
Theorem missing_dataset_ends_iteration (c : Cycle) (interval : Z) (st : BotState) :
  twitter_data_csv c = None →
  fetched c ≠ [] →
  ∃ lines,
    only_prints lines
    ∧ run_cycle list_of_set c interval st = (Ok tt, st, map BotDid lines ++ [Slept 30]).
Proof.
  intros Hcsv Hfeed.
  destruct (run_cycle_shape list_of_set c interval st)
    as (r1 & st1 & log1 & head & tail & Hfor1 & Hcycle & [lines [Hlines ->]] & Htail).
  destruct (fetched c) as [|post rest] eqn:Hposts; [done |].
  rewrite reply_to_posts_cons, Hcsv in Hfor1. injection Hfor1 as <- <- <-.
  destruct Htail as [[m [[=] _]]|[e [-> [_|[=]]]]].
  exists (lines ++ [Print ("Error in main loop: " +:+ exn_str e);
                    Print "Waiting 30 seconds before retrying..."]).
  split.
  - apply only_prints_app. by split.
  - rewrite Hcycle, map_app, <- app_assoc. done.
Qed.

(** X19: a feed request that raises, or is answered with a status other than
    200, changes nothing.  On an exception the iteration logs the two error
    lines and sleeps 30 seconds; on a status other than 200 it logs the
    status and the line for no new posts, and sleeps the poll interval. *)
Theorem failed_fetch_iteration (c : Cycle) (interval : Z) (st : BotState) :
  (∀ response, feed_request c = Ok response → status_code response ≠ 200%Z) →
  run_cycle list_of_set c interval st
  = (Ok tt, st,
     match feed_request c with
     | Ok response =>
         [BotDid (Print ("Error fetching posts: " +:+ str_int (status_code response)));
          BotDid (Print "No new posts to reply to");
          Slept interval]
     | Raise e => error_tail e
     end).
Proof.
  intros Hstatus.
  unfold run_cycle, loop_try, cycle_body, fetch_latest_posts.
  unfold mbind, mret, Loop_bind, Loop_ret, run_bot, sleep. bot_unfold.
  destruct (feed_request c) as [response|e]; simpl; [|done].
  rewrite bool_decide_eq_false_2 by (by apply Hstatus). done.
Qed.

End CycleEdges.

(** ** Facts about the start-up *)

(** X20: the constructor succeeds exactly when the three required variables
    are set and not empty, [CHECK_INTERVAL] (or "60" when it is unset) reads
    as an integer, and the login succeeds.  The bot then polls at that
    interval, whatever [check_interval] argument it was given, and starts
    from the set read from the replied-posts file. *)
Theorem init_succeeds_iff (check_interval_arg : Z) (environ : Environ) (file : file_state)
    (login : string → string → result unit) (cfg : BotConfig) (st : BotState) :
  init check_interval_arg environ file login = Ok (cfg, st)
  ↔ ∃ uri user pass interval replied,
      (LIST_URI environ = Some uri ∧ Py.is_empty uri = false)
      ∧ (BLUESKY_USERNAME environ = Some user ∧ Py.is_empty user = false)
      ∧ (BLUESKY_PASSWORD environ = Some pass ∧ Py.is_empty pass = false)
      ∧ Py.int (default "60" (CHECK_INTERVAL environ)) = Ok interval
      ∧ login user pass = Ok tt
      ∧ load_replied_posts file = Ok replied
      ∧ cfg = {| list_uri := uri; username := user; password := pass;
                 check_interval := interval |}
      ∧ st = {| replied_posts := replied; replied_posts_file := file |}.
Proof.
  unfold init, env_truthy.
  destruct (Py.int (default "60" (CHECK_INTERVAL environ))) as [interval|e]; simpl.
  2: { split; [done |]. by intros (?&?&?&?&?&_&_&_&?&_). }
  destruct (LIST_URI environ) as [uri|]; simpl.
  2: { split; [done |]. by intros (?&?&?&?&?&[? _]&_). }
  destruct (BLUESKY_USERNAME environ) as [user|]; simpl.
  2: { rewrite andb_false_r. split; [done |]. by intros (?&?&?&?&?&_&[? _]&_). }
  destruct (BLUESKY_PASSWORD environ) as [pass|]; simpl.
  2: { rewrite andb_false_r. split; [done |]. by intros (?&?&?&?&?&_&_&[? _]&_). }
  destruct (Py.is_empty uri) eqn:Huri; simpl.
  { split; [done |]. intros (?&?&?&?&?&[[= <-] ?]&_). congruence. }
  destruct (Py.is_empty user) eqn:Huser; simpl.
  { split; [done |]. intros (?&?&?&?&?&_&[[= <-] ?]&_). congruence. }
  destruct (Py.is_empty pass) eqn:Hpass; simpl.
  { split; [done |]. intros (?&?&?&?&?&_&_&[[= <-] ?]&_). congruence. }
  destruct (load_replied_posts file) as [replied|e] eqn:Hload; simpl.
  2: { split; [done |]. by intros (?&?&?&?&?&_&_&_&_&_&?&_). }
  destruct (login user pass) as [[]|e] eqn:Hlogin; simpl.
  2: { split; [done |].
       intros (?&?&?&?&?&_&[[= <-] _]&[[= <-] _]&_&?&_). congruence. }
  split.
  - intros [= <- <-]. by exists uri, user, pass, interval, replied.
  - intros (?&?&?&?&?&[[= <-] _]&[[= <-] _]&[[= <-] _]&[= <-]&_&[= <-]&->&->). done.
Qed.

(** ** Facts about the retries of the builder *)

Lemma download_attempts_true (get : nat → result Z) (len : nat) :
  ∀ start,
    download_attempts get (seq start len) = true
    ↔ ∃ k, (start ≤ k < start + len)%nat ∧ get k = Ok 200%Z
           ∧ ∀ j, (start ≤ j < k)%nat → retryable (get j).
Proof.
  induction len as [|len IH]; intros start.
  - split; [done |]. intros (k & Hk & _). lia.
  - cbn [seq download_attempts].
    assert (retryable (get start) →
            (download_attempts get (seq (S start) len) = true
             ↔ ∃ k, (start ≤ k < start + S len)%nat ∧ get k = Ok 200%Z
                    ∧ ∀ j, (start ≤ j < k)%nat → retryable (get j))) as Hnext.
    { intros Hretry. rewrite IH. split.
      - intros (k & Hk & Hok & Hbefore). exists k. split; [lia |]. split; [done |].
        intros j Hj. destruct (decide (j = start)) as [->|]; [done |].
        apply Hbefore. lia.
      - intros (k & Hk & Hok & Hbefore). exists k.
        assert (k ≠ start) as Hne.
        { intros ->. destruct Hretry as [Hr|[e Hr]]; congruence. }
        split; [lia |]. split; [done |]. intros j Hj. apply Hbefore. lia. }
    destruct (get start) as [status|e] eqn:Hget.
    + case_bool_decide as H200.
      * subst status. split; [|done]. intros _. exists start.
        split; [lia |]. split; [done |]. intros j Hj. lia.
      * case_bool_decide as H429.
        -- subst status. apply Hnext. by left.
        -- split; [done |]. intros (k & Hk & Hok & Hbefore).
           destruct (decide (k = start)) as [->|]; [congruence |].
           destruct (Hbefore start) as [Hr|[e Hr]]; [lia | congruence..].
    + apply Hnext. right. by exists e.
Qed.

(** X21: a download succeeds exactly when some attempt within the allowed
    number is answered with status 200 and every attempt before it was
    answered with status 429 or raised; any other status ends the download at
    once, without a further attempt. *)
Theorem download_succeeds_iff (env : BuilderEnv) (image_url save_path : string)
    (max_retries : nat) :
  download_image env image_url save_path max_retries = true
  ↔ ∃ k, (k < max_retries)%nat ∧ http_get env image_url k = Ok 200%Z
         ∧ ∀ j, (j < k)%nat → retryable (http_get env image_url j).
Proof.
  unfold download_image. rewrite download_attempts_true. split.
  - intros (k & Hk & Hok & Hbefore). exists k. split; [lia |]. split; [done |].
    intros j Hj. apply Hbefore. lia.
  - intros (k & Hk & Hok & Hbefore). exists k. split; [lia |]. split; [done |].
    intros j Hj. apply Hbefore. lia.
Qed.

Lemma rounds_cons (start k : nat) :
  concat (map (λ attempt, [Tried attempt; BackedOff attempt]) (seq start (S k)))
  = Tried start :: BackedOff start
    :: concat (map (λ attempt, [Tried attempt; BackedOff attempt]) (seq (S start) k)).
Proof. reflexivity. Qed.

Lemma download_attempts_log_cons (get : nat → result Z) (max_retries attempt : nat)
    (rest : list nat) :
  download_attempts_log get max_retries (attempt :: rest)
  = match get attempt with
    | Ok status =>
        if bool_decide (status = 200%Z) then (true, [Tried attempt])
        else if bool_decide (status = 429%Z) then
          let '(done, log) := download_attempts_log get max_retries rest in
          (done, Tried attempt :: backoff max_retries attempt ++ log)
        else (false, [Tried attempt])
    | Raise _ =>
        let '(done, log) := download_attempts_log get max_retries rest in
        (done, Tried attempt :: backoff max_retries attempt ++ log)
    end.
Proof. reflexivity. Qed.

Lemma download_attempts_cons (get : nat → result Z) (attempt : nat) (rest : list nat) :
  download_attempts get (attempt :: rest)
  = match get attempt with
    | Ok status =>
        if bool_decide (status = 200%Z) then true
        else if bool_decide (status = 429%Z) then download_attempts get rest
        else false
    | Raise _ => download_attempts get rest
    end.
Proof. reflexivity. Qed.

Lemma download_attempts_log_run (get : nat → result Z) (max_retries len : nat) :
  ∀ start,
    start + S len = max_retries →
    (download_attempts_log get max_retries (seq start (S len))).1
    = download_attempts get (seq start (S len))
    ∧ ∃ k, (k ≤ len)%nat
           ∧ (download_attempts_log get max_retries (seq start (S len))).2
             = concat (map (λ attempt, [Tried attempt; BackedOff attempt]) (seq start k))
               ++ [Tried (start + k)]
           ∧ (∀ j, (start ≤ j < start + k)%nat → retryable (get j))
           ∧ (k = len ∨ ¬ retryable (get (start + k))).
Proof.
  induction len as [|len IH]; intros start Hmax.
  - cbn [seq download_attempts_log download_attempts]. unfold backoff.
    rewrite bool_decide_eq_false_2 by lia.
    assert (∃ k, (k ≤ 0)%nat
                 ∧ [Tried start]
                   = concat (map (λ attempt, [Tried attempt; BackedOff attempt])
                               (seq start k)) ++ [Tried (start + k)]
                 ∧ (∀ j, (start ≤ j < start + k)%nat → retryable (get j))
                 ∧ (k = 0 ∨ ¬ retryable (get (start + k)))) as Hzero.
    { exists 0. split; [done |]. rewrite Nat.add_0_r. split; [done |].
      split; [intros j Hj; lia | by left]. }
    destruct (get start) as [status|e]; [|done].
    case_bool_decide; [done |]. by case_bool_decide.
  - change (seq start (S (S len))) with (start :: seq (S start) (S len)).
    rewrite download_attempts_log_cons, download_attempts_cons.
    assert (¬ retryable (get start) →
            ∃ k, (k ≤ S len)%nat
                 ∧ [Tried start]
                   = concat (map (λ attempt, [Tried attempt; BackedOff attempt])
                               (seq start k)) ++ [Tried (start + k)]
                 ∧ (∀ j, (start ≤ j < start + k)%nat → retryable (get j))
                 ∧ (k = S len ∨ ¬ retryable (get (start + k)))) as Hstop.
    { intros Hno. exists 0. split; [lia |]. rewrite Nat.add_0_r. split; [done |].
      split; [intros j Hj; lia | by right]. }
    assert (retryable (get start) →
            let '(done, log) := download_attempts_log get max_retries (seq (S start) (S len)) in
            done = download_attempts get (seq (S start) (S len))
            ∧ ∃ k, (k ≤ S len)%nat
                   ∧ Tried start :: backoff max_retries start ++ log
                     = concat (map (λ attempt, [Tried attempt; BackedOff attempt])
                                 (seq start k)) ++ [Tried (start + k)]
                   ∧ (∀ j, (start ≤ j < start + k)%nat → retryable (get j))
                   ∧ (k = S len ∨ ¬ retryable (get (start + k)))) as Hnext.
    { intros Hretry. destruct (IH (S start) ltac:(lia)) as [Hdone (k & Hk & Hlog & Hbefore & Hlast)].
      destruct (download_attempts_log get max_retries (seq (S start) (S len)))
        as [done log].
      simpl in Hdone, Hlog. split; [done |]. exists (S k). split; [lia |].
      unfold backoff. rewrite bool_decide_eq_true_2 by lia.
      rewrite rounds_cons, Hlog. replace (start + S k) with (S start + k) by lia.
      split; [done |]. split.
      - intros j Hj. destruct (decide (j = start)) as [->|]; [done |].
        apply Hbefore. lia.
      - destruct Hlast as [->|Hlast]; [by left | by right]. }
    destruct (get start) as [status|e] eqn:Hget.
    + case_bool_decide as H200.
      { split; [done |]. apply Hstop. intros [Hr|[e Hr]]; congruence. }
      case_bool_decide as H429.
      * specialize (Hnext ltac:(by left; subst)).
        by destruct (download_attempts_log get max_retries (seq (S start) (S len))).
      * split; [done |]. apply Hstop. intros [Hr|[e Hr]]; congruence.
    + specialize (Hnext ltac:(right; by exists e)).
      by destruct (download_attempts_log get max_retries (seq (S start) (S len))).
Qed.

(** X22: the attempts of a download are made in order, from attempt 0; a
    wait follows each attempt that was answered with status 429 or raised,
    except the last one allowed, and nothing follows the attempt that ends
    the download.  The waits do not bear on the result. *)
Theorem download_waits_between_attempts (env : BuilderEnv) (image_url save_path : string)
    (max_retries : nat) :
  (0 < max_retries)%nat →
  (download_image_log env image_url save_path max_retries).1
  = download_image env image_url save_path max_retries
  ∧ ∃ k, (k < max_retries)%nat
         ∧ (download_image_log env image_url save_path max_retries).2
           = failed_rounds k ++ [Tried k]
         ∧ (∀ j, (j < k)%nat → retryable (http_get env image_url j))
         ∧ (k = max_retries - 1 ∨ ¬ retryable (http_get env image_url k)).
Proof.
  intros Hmax. unfold download_image_log, download_image, failed_rounds.
  destruct max_retries as [|len]; [lia |].
  destruct (download_attempts_log_run (http_get env image_url) (S len) len 0 eq_refl)
    as [Hdone (k & Hk & Hlog & Hbefore & Hlast)].
  split; [done |]. exists k. split; [lia |]. split; [done |]. split.
  - intros j Hj. apply Hbefore. lia.
  - destruct Hlast as [->|Hlast]; [left; lia | by right].
Qed.

Lemma try_attempts_log_cons (visit : nat → page_load) (max_retries attempt : nat)
    (rest : list nat) :
  try_attempts_log visit max_retries (attempt :: rest)
  = match attempt_finds (visit attempt) with
    | Some image_url => (Some image_url, [Tried attempt])
    | None =>
        let '(found, log) := try_attempts_log visit max_retries rest in
        (found, Tried attempt :: backoff max_retries attempt ++ log)
    end.
Proof.
  cbn [try_attempts_log]. unfold attempt_finds.
  destruct (visit attempt) as [msg|page]; [done |].
  by destruct (try_selectors page selectors).
Qed.

Lemma try_attempts_log_run (visit : nat → page_load) (max_retries len : nat) :
  ∀ start,
    start + S len = max_retries →
    (try_attempts_log visit max_retries (seq start (S len))).1
    = try_attempts visit (seq start (S len))
    ∧ ∃ k, (k ≤ len)%nat
           ∧ (try_attempts_log visit max_retries (seq start (S len))).2
             = concat (map (λ attempt, [Tried attempt; BackedOff attempt]) (seq start k))
               ++ [Tried (start + k)]
           ∧ (∀ j, (start ≤ j < start + k)%nat → attempt_finds (visit j) = None)
           ∧ (k = len ∨ is_Some (attempt_finds (visit (start + k)))).
Proof.
  induction len as [|len IH]; intros start Hmax.
  - change (seq start 1) with [start].
    rewrite try_attempts_log_cons, try_attempts_step.
    destruct (attempt_finds (visit start)) as [image_url|] eqn:Hfind.
    + split; [done |]. exists 0. rewrite Nat.add_0_r. split; [done |]. split; [done |].
      split; [intros j Hj; lia | by left].
    + unfold backoff. rewrite bool_decide_eq_false_2 by lia.
      split; [done |]. exists 0. rewrite Nat.add_0_r. split; [done |]. split; [done |].
      split; [intros j Hj; lia | by left].
  - change (seq start (S (S len))) with (start :: seq (S start) (S len)).
    rewrite try_attempts_log_cons, try_attempts_step.
    destruct (attempt_finds (visit start)) as [image_url|] eqn:Hfind.
    + split; [done |]. exists 0. rewrite Nat.add_0_r, Hfind. split; [lia |].
      split; [done |]. split; [intros j Hj; lia | right; by eexists].
    + destruct (IH (S start) ltac:(lia)) as [Hdone (k & Hk & Hlog & Hbefore & Hlast)].
      destruct (try_attempts_log visit max_retries (seq (S start) (S len)))
        as [found log].
      simpl in Hdone, Hlog. split; [done |]. exists (S k). split; [lia |].
      unfold backoff. rewrite bool_decide_eq_true_2 by lia.
      cbn [snd]. rewrite rounds_cons, Hlog.
      replace (start + S k) with (S start + k) by lia.
      split; [done |]. split.
      * intros j Hj. destruct (decide (j = start)) as [->|]; [done |].
        apply Hbefore. lia.
      * destruct Hlast as [->|Hlast]; [by left | by right].
Qed.

(** X23: the visits of a tweet page are made in order, from attempt 0; a wait
    follows each visit that raised or found no image, except the last one
    allowed, and nothing follows the visit that finds an image.  The waits do
    not bear on the result. *)
Theorem visits_wait_between_attempts (env : BuilderEnv) (tweet_url : string)
    (max_retries : nat) :
  (0 < max_retries)%nat →
  (get_image_url_from_tweet_log env tweet_url max_retries).1
  = get_image_url_from_tweet env tweet_url max_retries
  ∧ ∃ k, (k < max_retries)%nat
         ∧ (get_image_url_from_tweet_log env tweet_url max_retries).2
           = failed_rounds k ++ [Tried k]
         ∧ (∀ j, (j < k)%nat → attempt_finds (browse env tweet_url j) = None)
         ∧ (k = max_retries - 1 ∨ is_Some (attempt_finds (browse env tweet_url k))).
Proof.
  intros Hmax. unfold get_image_url_from_tweet_log, get_image_url_from_tweet, failed_rounds.
  destruct max_retries as [|len]; [lia |].
  destruct (try_attempts_log_run (browse env tweet_url) (S len) len 0 eq_refl)
    as [Hdone (k & Hk & Hlog & Hbefore & Hlast)].
  split; [done |]. exists k. split; [lia |]. split; [done |]. split.
  - intros j Hj. apply Hbefore. lia.
  - destruct Hlast as [->|Hlast]; [left; lia | by right].
Qed.

(** ** Further facts about the builder *)

Lemma filter_none {A} (P : A → Prop) `{∀ x, Decision (P x)} (l : list A) :
  (∀ x, x ∈ l → ¬ P x) → filter P l = [].
Proof.
  intros Hnone. destruct (filter P l) as [|x l'] eqn:Hf; [done |].
  assert (x ∈ filter P l) as Hx by (rewrite Hf; apply list_elem_of_here).
  apply list_elem_of_filter in Hx as [HP Hx]. by destruct (Hnone x Hx).
Qed.

(** X24: resuming is idempotent: run again on the CSV a run has left, with
    the same source and starting ID, the builder processes no entry and
    leaves the rows as they are, whatever the browser, the network or the
    image directory then are.  An entry whose row records a failure is thus
    not tried again. *)
Theorem resume_is_idempotent (env env' : BuilderEnv) (matches : list entry)
    (output_csv : option (list Row)) (images_dir images_dir' : string) (start_from : Z) :
  process_twitter_data env' matches
    (Some (process_twitter_data env matches output_csv images_dir start_from))
    images_dir' start_from
  = process_twitter_data env matches output_csv images_dir start_from.
Proof.
  unfold process_twitter_data at 1. cbn [default].
  set (rows := process_twitter_data env matches output_csv images_dir start_from).
  unfold entries_to_process.
  rewrite (filter_none _ (extract_data_from_code matches)); [by rewrite app_nil_r |].
  intros e He [Hstart Hnew]. apply Hnew. unfold processed_ids.
  rewrite elem_of_list_to_set, list_elem_of_fmap.
  destruct (decide (entry_id e ∈ processed_ids output_csv)) as [Hold|Hfresh].
  - destruct output_csv as [old|]; simpl in Hold; [|by apply not_elem_of_empty in Hold].
    apply elem_of_list_to_set, list_elem_of_fmap in Hold as [r [Hid Hr]].
    exists r. split; [done |]. unfold rows, process_twitter_data. simpl.
    apply elem_of_app. by left.
  - exists (process_entry env images_dir e). split; [by rewrite process_entry_id |].
    unfold rows, process_twitter_data. apply elem_of_app. right.
    apply list_elem_of_fmap. exists e. split; [done |].
    unfold entries_to_process. by apply list_elem_of_filter.
Qed.

Lemma insert_by_id_least (e : entry) (l : list entry) :
  Forall (id_le e) l → insert_by_id e l = e :: l.
Proof.
  destruct l as [|e' l]; [done |]. intros Hall. apply Forall_cons in Hall as [Hle _].
  simpl. by rewrite bool_decide_eq_true_2.
Qed.

Lemma sort_by_id_sorted_id (l : list entry) :
  StronglySorted id_le l → sort_by_id l = l.
Proof.
  induction 1 as [|e l Hl IH Hall]; [done |].
  simpl. rewrite IH. by apply insert_by_id_least.
Qed.

(** X25: the entries read from the code file come out in ascending order of
    ID, each as often as the file has it, with entries of the same ID in the
    order of the file; a file whose entries are already in ascending order is
    read in its own order. *)
Theorem extract_sorts_stably (matches : list entry) :
  StronglySorted id_le (extract_data_from_code matches)
  ∧ extract_data_from_code matches ≡ₚ map read_match matches
  ∧ (∀ k, filter (λ e, entry_id e = k) (extract_data_from_code matches)
          = filter (λ e, entry_id e = k) (map read_match matches))
  ∧ (StronglySorted id_le (map read_match matches) →
     extract_data_from_code matches = map read_match matches).
Proof.
  unfold extract_data_from_code. split; [apply sort_by_id_sorted |].
  split; [apply sort_by_id_perm |]. split; [intros k; apply sort_by_id_stable |].
  apply sort_by_id_sorted_id.
Qed.

Lemma after_first_contains (sep s : string) :
  Py.after_first sep s = None ↔ Py.contains sep s = false.
Proof.
  induction s as [|c s IH].
  - rewrite contains_nil, orb_false_r. cbn [Py.after_first].
    by destruct (String.prefix sep EmptyString).
  - rewrite contains_cons. cbn [Py.after_first].
    destruct (String.prefix sep (String c s)); [done |]. by rewrite IH.
Qed.

Lemma prefix_empty (s : string) : String.prefix EmptyString s = true.
Proof. by destruct s. Qed.

Lemma contains_slash_app (a b : string) :
  Py.contains "/" (a +:+ b) = Py.contains "/" a || Py.contains "/" b.
Proof.
  induction a as [|c a IH]; [done |].
  rewrite append_cons, !contains_cons, IH, orb_assoc.
  cbn [String.prefix]. destruct (Ascii.ascii_dec "/" c); [|done].
  by rewrite !prefix_empty.
Qed.

(** X26: the row written for an entry keeps its ID, URL and caption.  Its
    image cell is "No image found" when no image URL is found, whatever the
    tweet URL; when one is found and the tweet URL has no "status/", the
    cell is the error text of the failed index and no download is tried;
    otherwise the image goes to a file directly inside the image directory,
    whose name holds no "/", and the cell is that path when the download
    succeeds and "Failed to download" when it does not. *)
Theorem image_cell_cases (env : BuilderEnv) (images_dir : string) (id_num : Z)
    (url caption : string) :
  let written := process_entry env images_dir (id_num, url, caption) in
  ID written = id_num ∧ Twitter_URL written = url ∧ Reply_Text written = caption
  ∧ match get_image_url_from_tweet env url 3 with
    | None => Local_Image_Path written = "No image found"
    | Some image_url =>
        if Py.contains "status/" url then
          ∃ file_name save_path,
            Py.contains "/" file_name = false
            ∧ (save_path = images_dir +:+ file_name
               ∨ save_path = images_dir +:+ "/" +:+ file_name)
            ∧ Local_Image_Path written
              = if download_image env image_url save_path 3
                then save_path else "Failed to download"
        else Local_Image_Path written = "Error: list index out of range"
    end.
Proof.
  unfold process_entry.
  destruct (get_image_url_from_tweet env url 3) as [image_url|]; [|done].
  unfold Py.split_item1.
  destruct (Py.contains "status/" url) eqn:Hc.
  - destruct (Py.after_first "status/" url) as [rest|] eqn:Ha.
    2: { apply after_first_contains in Ha. congruence. }
    simpl.
    set (tweet_id := Py.before_first "/" (Py.before_first "status/" rest)).
    set (file_name := "twitter_" +:+ tweet_id +:+ ".jpg").
    assert (Py.contains "/" file_name = false) as Hfree.
    { unfold file_name. rewrite !contains_slash_app.
      unfold tweet_id. by rewrite before_first_free. }
    assert (Py.path_join images_dir file_name = images_dir +:+ file_name
            ∨ Py.path_join images_dir file_name = images_dir +:+ "/" +:+ file_name)
      as Hpath.
    { unfold Py.path_join. change (String.prefix "/" file_name) with false.
      destruct (Py.is_empty images_dir || Py.ends_with_slash images_dir); auto. }
    destruct (download_image env image_url (Py.path_join images_dir file_name) 3) eqn:Hd;
      simpl; repeat split; try done;
      exists file_name, (Py.path_join images_dir file_name); by rewrite Hd.
  - apply after_first_contains in Hc. by rewrite Hc.
Qed.
